(** * HubertFA: the HuBERT encoder and the training callbacks

    A shallow embedding of [networks/hubert/model.py] and
    [networks/utils/train_callbacks.py].

    Conventions of the embedding:
    - Python integers are [Z]; sizes and positions inside a tensor are [nat].
    - Python and torch floating-point numbers are idealised as rationals [Q];
      transcendental functions (GELU, square root) are parameters.
    - Randomness is explicit: the draw of [random.random()] and the raw
      choices consumed by [torch.multinomial] are arguments.
    - Exceptions are values of [exn]; a call that can raise returns [result].
    - The [device] arguments of the source carry no behaviour and are left out. *)

From Stdlib Require Import ZArith QArith Lia Lqa ZifyNat Ascii String.
From stdpp Require Import base list strings gmap pretty.

Local Open Scope Z_scope.

(** ** Exceptions *)

Inductive exn : Set :=
| ValueError
| RuntimeError
| IndexError
| KeyError
| ZeroDivisionError.

Inductive result (A : Type) : Type :=
| Ok (a : A)
| Raise (e : exn).

Arguments Ok {A} a.
Arguments Raise {A} e.

Definition bind {A B : Type} (r : result A) (k : A -> result B) : result B :=
  match r with
  | Ok a => k a
  | Raise e => Raise e
  end.

Notation "x <-- r ;; k" := (bind r (fun x => k))
  (at level 100, r at next level, right associativity).

Fixpoint mapM {A B : Type} (f : A -> result B) (l : list A) : result (list B) :=
  match l with
  | [] => Ok []
  | a :: l' => b <-- f a ;; bs <-- mapM f l' ;; Ok (b :: bs)
  end.

(** ** Facts about [mapM] *)

Lemma mapM_Ok_Forall2 {A B : Type} (f : A -> result B) (l : list A) (bs : list B) :
  mapM f l = Ok bs <-> Forall2 (fun a b => f a = Ok b) l bs.
Proof.
  revert bs. induction l as [|a l IH]; intros bs; simpl.
  - split.
    + intros [= <-]. constructor.
    + intros H. inversion H. reflexivity.
  - destruct (f a) as [b|e] eqn:Hfa; simpl.
    + destruct (mapM f l) as [bs'|e] eqn:Hm; simpl.
      * split.
        -- intros [= <-]. constructor; [done|]. by apply IH.
        -- intros H. inversion H as [|? b0 ? bs0 Hb Hbs]; subst.
           apply IH in Hbs. congruence.
      * split; [done|].
        intros H. inversion H as [|? b0 ? bs0 Hb Hbs]; subst.
        apply IH in Hbs. done.
    + split; [done|].
      intros H. inversion H; subst. congruence.
Qed.

Lemma mapM_map {A B C : Type} (f : B -> result C) (h : A -> B) (l : list A) :
  mapM f (map h l) = mapM (fun a => f (h a)) l.
Proof. induction l as [|a l IH]; simpl; [done|]. by rewrite IH. Qed.

Lemma mapM_Forall_Ok {A B : Type} (f : A -> result B) (P : A -> B -> Prop)
    (l : list A) :
  Forall (fun a => exists b, f a = Ok b /\ P a b) l ->
  exists bs, mapM f l = Ok bs /\ Forall2 P l bs.
Proof.
  induction 1 as [|a l (b & Hb & HP) _ (bs & Hbs & HPs)]; simpl.
  - exists []. split; [done|constructor].
  - exists (b :: bs). rewrite Hb, Hbs. split; [done|by constructor].
Qed.

Lemma mapM_Raise {A B : Type} (f : A -> result B) (e : exn) (l : list A) :
  l <> [] -> Forall (fun a => f a = Raise e) l -> mapM f l = Raise e.
Proof.
  intros Hne Hl. destruct Hl as [|a l Ha _]; [done|]. simpl. by rewrite Ha.
Qed.

(** Python's [int(x)] on a float truncates toward zero. *)
Definition py_int (x : Q) : Z := Z.quot (Qnum x) (Z.pos (Qden x)).

(** * The span masker: [_compute_mask] *)

Module SpanMasker.

(** ** [torch.multinomial(input, num_samples)], sampling without replacement

    The categories of a row are the positions of its non-zero weights.  The
    sampler is driven by a stream of raw choices [g]: the [i]-th pick takes
    the candidate at position [g i mod (number of candidates left)] and
    removes it.  The source only passes all-ones weights, for which every
    candidate left is equally likely; the weights select the candidates and
    play no other part here.  torch rejects [num_samples <= 0] and, without
    replacement, more samples than categories. *)

Definition categories (w : list Q) : list nat :=
  filter (fun j => negb (Qeq_bool (nth j w 0%Q) 0%Q) = true) (seq 0 (length w)).

Fixpoint draw (cands : list nat) (n : nat) (g : nat -> nat) (i : nat) : list nat :=
  match n with
  | O => []
  | S n' =>
      let k := (g i `mod` length cands)%nat in
      match cands !! k with
      | Some c => c :: draw (delete k cands) n' g (S i)
      | None => []
      end
  end.

Definition multinomial (input : list (list Q)) (num_samples : Z)
    (gen : nat -> nat -> nat) : result (list (list nat)) :=
  if num_samples <=? 0 then Raise RuntimeError
  else if existsb (fun w => Z.of_nat (length (categories w)) <? num_samples) input
       then Raise RuntimeError
       else Ok (imap (fun r w => draw (categories w) (Z.to_nat num_samples) (gen r) 0) input).

(** ** Tensor helpers used by [_compute_mask] *)

(** [idx.unsqueeze(-1).expand(B, n, L).reshape(B, n * L)], one row. *)
Definition expand_reshape (mask_length : nat) (row : list nat) : list nat :=
  flat_map (fun s => replicate mask_length s) row.

(** [torch.arange(L)[None, None, :].expand(B, n, L).reshape(B, n * L)], one row. *)
Definition arange_expand_reshape (num mask_length : nat) : list nat :=
  concat (replicate num (seq 0 mask_length)).

(** [mask.scatter(1, idx, True)], one row; an index outside the row raises. *)
Definition scatter_row (row : list bool) (idx : list nat) : result (list bool) :=
  if forallb (fun i => (i <? length row)%nat) idx
  then Ok (foldl (fun acc i => <[i := true]> acc) row idx)
  else Raise RuntimeError.

Definition scatter (mask : list (list bool)) (idx : list (list nat))
    : result (list (list bool)) :=
  mapM (fun '(row, ix) => scatter_row row ix) (zip mask idx).

(** ** Number of spans (lines 193-198) *)

Definition num_masked_spans (sequence_length : Z) (mask_prob : Q)
    (mask_length min_masks : Z) (u : Q) : Z :=
  let n := py_int (mask_prob * inject_Z sequence_length / inject_Z mask_length + u)%Q in
  let n := Z.max n min_masks in
  if n * mask_length >? sequence_length then sequence_length / mask_length else n.

(** ** [_compute_mask] *)

Definition _compute_mask (shape : nat * Z) (mask_prob : Q) (mask_length : Z)
    (min_masks : Z) (u : Q) (gen : nat -> nat -> nat) : result (list (list bool)) :=
  let '(batch_size, sequence_length) := shape in
  if mask_length <? 1 then Raise ValueError
  else if mask_length >? sequence_length then Raise ValueError
  else
    let num := num_masked_spans sequence_length mask_prob mask_length min_masks u in
    let mask := replicate batch_size (replicate (Z.to_nat sequence_length) false) in
    let uniform_dist :=
      replicate batch_size
        (replicate (Z.to_nat (sequence_length - (mask_length - 1))) 1%Q) in
    mask_indices <-- multinomial uniform_dist num gen ;;
    let mask_indices := map (expand_reshape (Z.to_nat mask_length)) mask_indices in
    let offsets :=
      replicate batch_size
        (arange_expand_reshape (Z.to_nat num) (Z.to_nat mask_length)) in
    let mask_idxs := zip_with (zip_with Nat.add) mask_indices offsets in
    scatter mask mask_idxs.



(** ** Reading a mask *)

Definition count_true (row : list bool) : nat :=
  length (filter (fun b => b = true) row).





(** ** Facts about the list helpers *)

Lemma foldl_insert_true_length (idx : list nat) (row : list bool) :
  length (foldl (fun acc i => <[i := true]> acc) row idx) = length row.
Proof.
  revert row. induction idx as [|i idx IH]; intros row; simpl; [done|].
  by rewrite IH, length_insert.
Qed.

Lemma foldl_insert_true_lookup (idx : list nat) (row : list bool) (p : nat) :
  foldl (fun acc i => <[i := true]> acc) row idx !! p = Some true <->
  row !! p = Some true \/ (p ∈ idx /\ (p < length row)%nat).
Proof.
  revert row. induction idx as [|i idx IH]; intros row; simpl.
  - split; [by left|]. intros [H|[H _]]; [done|]. by apply elem_of_nil in H.
  - rewrite IH, length_insert. destruct (decide (i = p)) as [->|Hne].
    + split.
      * intros [H|[H Hlt]].
        -- right. split; [by left|]. by apply lookup_lt_Some in H; rewrite length_insert in H.
        -- right. split; [by right|done].
      * intros [H|[_ Hlt]].
        -- left. apply lookup_lt_Some in H as Hlt. by rewrite list_lookup_insert_eq.
        -- left. by rewrite list_lookup_insert_eq.
    + rewrite list_lookup_insert_ne by done. split.
      * intros [H|[H Hlt]]; [by left|]. right. split; [by right|done].
      * intros [H|[H Hlt]]; [by left|]. right. split; [|done].
        apply elem_of_cons in H as [->|H]; done.
Qed.

Lemma scatter_row_false (n : nat) (idx : list nat) :
  Forall (fun i => (i < n)%nat) idx ->
  exists row, scatter_row (replicate n false) idx = Ok row /\ length row = n /\
    forall p, row !! p = Some true <-> p ∈ idx.
Proof.
  intros Hidx. unfold scatter_row.
  assert (forallb (fun i => (i <? length (replicate n false))%nat) idx = true) as ->.
  { apply forallb_forall. intros i Hi. apply Nat.ltb_lt. rewrite length_replicate.
    rewrite Forall_forall in Hidx. apply Hidx. by apply list_elem_of_In. }
  eexists. split; [done|]. split.
  - by rewrite foldl_insert_true_length, length_replicate.
  - intros p. rewrite foldl_insert_true_lookup, length_replicate. split.
    + intros [H|[H _]]; [|done]. apply lookup_replicate in H as [? _]. done.
    + intros H. right. split; [done|]. rewrite Forall_forall in Hidx. by apply Hidx.
Qed.

(** ** The sampler *)

Lemma filter_Forall_id {A : Type} (P : A -> Prop) `{!forall x, Decision (P x)}
    (l : list A) :
  Forall P l -> filter P l = l.
Proof.
  induction 1 as [|x l Hx _ IH]; [done|].
  by rewrite filter_cons_True, IH.
Qed.

Lemma categories_ones (K : nat) : categories (replicate K 1%Q) = seq 0 K.
Proof.
  unfold categories. rewrite length_replicate.
  apply filter_Forall_id, Forall_forall. intros j Hj.
  apply elem_of_seq in Hj. rewrite nth_lookup, lookup_replicate_2 by lia. done.
Qed.

Lemma NoDup_delete_lookup {A : Type} (l : list A) (k : nat) (c : A) :
  NoDup l -> l !! k = Some c -> NoDup (delete k l) /\ c ∉ delete k l.
Proof.
  intros Hnd Hk. rewrite delete_take_drop.
  rewrite <- (take_drop_middle l k c Hk) in Hnd.
  apply NoDup_app in Hnd as (Hl & Hlr & Hr).
  apply NoDup_cons in Hr as [Hc Hr]. split.
  - apply NoDup_app. split; [done|]. split; [|done].
    intros x Hx Hx'. apply (Hlr x Hx). by right.
  - intros Hin. apply elem_of_app in Hin as [Hin|Hin]; [|done].
    apply (Hlr c Hin). by left.
Qed.

Lemma draw_length (n : nat) : forall cands g i,
  (n <= length cands)%nat -> length (draw cands n g i) = n.
Proof.
  induction n as [|n IH]; intros cands g i Hn; simpl; [done|].
  assert (g i `mod` length cands < length cands)%nat as Hk
    by (apply Nat.mod_upper_bound; lia).
  destruct (lookup_lt_is_Some_2 _ _ Hk) as [c Hc]. rewrite Hc. simpl.
  rewrite IH; [done|]. rewrite length_delete by eauto. lia.
Qed.

Lemma draw_elem_of (n : nat) : forall cands g i x,
  x ∈ draw cands n g i -> x ∈ cands.
Proof.
  induction n as [|n IH]; intros cands g i x; simpl.
  - intros H. by apply elem_of_nil in H.
  - destruct (cands !! _) as [c|] eqn:Hc; [|intros H; by apply elem_of_nil in H].
    intros [->|H]%elem_of_cons.
    + by eapply list_elem_of_lookup_2.
    + eapply list_elem_of_delete_inv, IH, H.
Qed.

Lemma draw_NoDup (n : nat) : forall cands g i,
  NoDup cands -> NoDup (draw cands n g i).
Proof.
  induction n as [|n IH]; intros cands g i Hnd; simpl; [constructor|].
  destruct (cands !! _) as [c|] eqn:Hc; [|constructor].
  destruct (NoDup_delete_lookup _ _ _ Hnd Hc) as [Hnd' Hc'].
  apply NoDup_cons. split; [|by apply IH].
  intros Hin. by apply draw_elem_of in Hin.
Qed.

Lemma draw_shift (n : nat) : forall cands g k i,
  draw cands n (fun j => match j with O => k | S j' => g j' end) (S i) =
  draw cands n g i.
Proof.
  induction n as [|n IH]; intros cands g k i; simpl; [done|].
  destruct (cands !! _); [|done]. f_equal. apply IH.
Qed.

(** Every admissible outcome is produced by some stream of raw choices, so
    the sampler model constrains the draws no further than torch does. *)
Lemma draw_complete (target : list nat) : forall cands,
  NoDup target -> (forall x, x ∈ target -> x ∈ cands) ->
  exists g, draw cands (length target) g 0 = target.
Proof.
  induction target as [|t target IH]; intros cands Hnd Hsub; simpl.
  - by exists (fun _ => O).
  - apply NoDup_cons in Hnd as [Ht Hnd].
    destruct (list_elem_of_lookup_1 cands t) as [k Hk]; [apply Hsub; by left|].
    destruct (IH (delete k cands) Hnd) as [g Hg].
    { intros x Hx. assert (x ∈ cands) as Hxc by (apply Hsub; by right).
      apply list_elem_of_lookup_1 in Hxc as [j Hj].
      assert (j <> k) as Hjk by (intros ->; congruence).
      destruct (decide (j < k)%nat).
      - apply (list_elem_of_lookup_2 _ j). by rewrite list_lookup_delete_lt.
      - apply (list_elem_of_lookup_2 _ (j - 1)).
        rewrite list_lookup_delete_ge by lia. by replace (S (j - 1)) with j by lia. }
    exists (fun i => match i with O => k | S i' => g i' end).
    apply lookup_lt_Some in Hk as Hlt.
    rewrite Nat.mod_small by done. rewrite Hk. f_equal.
    by rewrite draw_shift.
Qed.

(** ** The scattered indices of one row *)

Lemma zip_with_add_replicate_seq (L s : nat) :
  zip_with Nat.add (replicate L s) (seq 0 L) = map (Nat.add s) (seq 0 L).
Proof.
  generalize 0%nat as a. induction L as [|L IH]; intros a; simpl; [done|].
  by rewrite IH.
Qed.

Lemma mask_idxs_row (L : nat) (st : list nat) :
  zip_with Nat.add (expand_reshape L st) (arange_expand_reshape (length st) L) =
  flat_map (fun s => map (Nat.add s) (seq 0 L)) st.
Proof.
  unfold expand_reshape, arange_expand_reshape.
  induction st as [|s st IH]; simpl; [done|].
  rewrite zip_with_app by (by rewrite length_replicate, length_seq).
  by rewrite IH, zip_with_add_replicate_seq.
Qed.

Lemma elem_of_mask_idxs (L : nat) (st : list nat) (p : nat) :
  p ∈ flat_map (fun s => map (Nat.add s) (seq 0 L)) st <->
  exists s, s ∈ st /\ (s <= p < s + L)%nat.
Proof.
  rewrite list_elem_of_In, in_flat_map. split.
  - intros (s & Hs & Hp). exists s. split; [by apply list_elem_of_In|].
    apply list_elem_of_In, list_elem_of_fmap in Hp as (o & -> & Ho).
    apply elem_of_seq in Ho. lia.
  - intros (s & Hs & Hp). exists s. split; [by apply list_elem_of_In|].
    apply list_elem_of_In, list_elem_of_fmap. exists (p - s)%nat.
    split; [lia|]. apply elem_of_seq. lia.
Qed.

Lemma zip_replicate_map {A B C : Type} (c : C) (h : A -> B) (l : list A) :
  zip (replicate (length l) c) (map h l) = map (fun x => (c, h x)) l.
Proof. induction l as [|a l IH]; simpl; [done|]. by rewrite IH. Qed.

Lemma zip_with_map_replicate {A B C D : Type} (f : B -> C -> D) (h : A -> B)
    (c : C) (l : list A) :
  zip_with f (map h l) (replicate (length l) c) = map (fun x => f (h x) c) l.
Proof. induction l as [|a l IH]; simpl; [done|]. by rewrite IH. Qed.

(** ** Arithmetic of the span count *)

(** Lines 197-198: the clamp of the span count. *)
Lemma num_masked_spans_unfold sequence_length mask_prob mask_length min_masks u :
  num_masked_spans sequence_length mask_prob mask_length min_masks u =
  let n := Z.max (py_int (mask_prob * inject_Z sequence_length
                          / inject_Z mask_length + u)%Q) min_masks in
  if n * mask_length >? sequence_length then sequence_length / mask_length else n.
Proof. reflexivity. Qed.

Lemma num_masked_spans_fits sequence_length mask_prob mask_length min_masks u :
  1 <= mask_length <= sequence_length ->
  num_masked_spans sequence_length mask_prob mask_length min_masks u * mask_length
    <= sequence_length.
Proof.
  intros Hl. rewrite num_masked_spans_unfold. cbv zeta.
  destruct (Z.gtb_spec (Z.max (py_int (mask_prob * inject_Z sequence_length
      / inject_Z mask_length + u)%Q) min_masks * mask_length) sequence_length); [|lia].
  rewrite Z.mul_comm. apply Z.mul_div_le. lia.
Qed.

Lemma num_masked_spans_le_offsets sequence_length mask_prob mask_length min_masks u :
  1 <= mask_length <= sequence_length ->
  num_masked_spans sequence_length mask_prob mask_length min_masks u
    <= sequence_length - (mask_length - 1).
Proof.
  intros Hl.
  pose proof (num_masked_spans_fits sequence_length mask_prob mask_length min_masks u Hl).
  nia.
Qed.

Lemma num_masked_spans_lower sequence_length mask_prob mask_length min_masks u :
  1 <= mask_length <= sequence_length ->
  Z.min min_masks (sequence_length / mask_length)
    <= num_masked_spans sequence_length mask_prob mask_length min_masks u.
Proof.
  intros Hl. rewrite num_masked_spans_unfold. cbv zeta.
  destruct (Z.gtb_spec (Z.max (py_int (mask_prob * inject_Z sequence_length
      / inject_Z mask_length + u)%Q) min_masks * mask_length) sequence_length); lia.
Qed.


Lemma num_masked_spans_pos sequence_length mask_prob mask_length min_masks u :
  1 <= mask_length <= sequence_length ->
  1 <= min_masks ->
  1 <= num_masked_spans sequence_length mask_prob mask_length min_masks u.
Proof.
  intros Hl Hm.
  pose proof (num_masked_spans_lower sequence_length mask_prob mask_length min_masks u Hl).
  assert (1 <= sequence_length / mask_length)
    by (apply Z.div_le_lower_bound; lia).
  lia.
Qed.

(** ** What a returned mask looks like *)

(** A row of the mask together with the span starts it was built from. *)
Record is_span_row (T L n : nat) (st : list nat) (row : list bool) : Prop := {
  starts_length : length st = n;
  starts_NoDup : NoDup st;
  starts_range : forall s, s ∈ st -> (s + L <= T)%nat;
  row_length : length row = T;
  row_masked : forall p,
    row !! p = Some true <-> exists s, s ∈ st /\ (s <= p < s + L)%nat
}.

Lemma multinomial_ones (B K : nat) (num : Z) (gen : nat -> nat -> nat) :
  1 <= num <= Z.of_nat K ->
  multinomial (replicate B (replicate K 1%Q)) num gen =
  Ok (map (fun r => draw (seq 0 K) (Z.to_nat num) (gen r) 0) (seq 0 B)).
Proof.
  intros Hnum. unfold multinomial.
  destruct (Z.leb_spec num 0); [lia|].
  assert (existsb (fun w => Z.of_nat (length (categories w)) <? num)
            (replicate B (replicate K 1%Q)) = false) as ->.
  { apply not_true_is_false. intros (w & Hw & Hlt)%existsb_exists.
    apply list_elem_of_In, elem_of_replicate in Hw as [-> _].
    rewrite categories_ones, length_seq in Hlt. lia. }
  f_equal. apply list_eq. intros r.
  rewrite list_lookup_imap, list_lookup_fmap.
  destruct (decide (r < B)%nat) as [Hr|Hr].
  - rewrite lookup_replicate_2 by done. rewrite lookup_seq_lt by done. simpl.
    by rewrite categories_ones.
  - rewrite (proj1 (lookup_replicate_None _ _ _)) by lia.
    rewrite lookup_seq_ge by lia. done.
Qed.

Lemma scatter_starts (T L n : nat) (starts : list (list nat)) :
  Forall (fun st => length st = n /\ NoDup st /\
                    forall s, s ∈ st -> (s + L <= T)%nat) starts ->
  exists m,
    scatter (replicate (length starts) (replicate T false))
      (zip_with (zip_with Nat.add) (map (expand_reshape L) starts)
         (replicate (length starts) (arange_expand_reshape n L))) = Ok m /\
    Forall2 (is_span_row T L n) starts m.
Proof.
  intros Hst. unfold scatter.
  rewrite zip_with_map_replicate, zip_replicate_map, mapM_map.
  apply mapM_Forall_Ok. eapply Forall_impl; [exact Hst|]. cbv beta.
  intros st (Hlen & Hnd & Hrange).
  rewrite <- Hlen, mask_idxs_row.
  destruct (scatter_row_false T (flat_map (fun s => map (Nat.add s) (seq 0 L)) st))
    as (row & Hrow & Hrl & Hrm).
  { apply Forall_forall. intros p (s & Hs & Hp)%elem_of_mask_idxs.
    specialize (Hrange s Hs). lia. }
  exists row. split; [done|]. split; try done.
  intros p. by rewrite Hrm, elem_of_mask_idxs.
Qed.

Lemma compute_mask_ok (B : nat) (sequence_length : Z) (mask_prob : Q)
    (mask_length min_masks : Z) (u : Q) (gen : nat -> nat -> nat) :
  1 <= mask_length <= sequence_length ->
  1 <= num_masked_spans sequence_length mask_prob mask_length min_masks u ->
  let num := num_masked_spans sequence_length mask_prob mask_length min_masks u in
  let starts :=
    map (fun r => draw (seq 0 (Z.to_nat (sequence_length - (mask_length - 1))))
                    (Z.to_nat num) (gen r) 0) (seq 0 B) in
  exists m,
    _compute_mask (B, sequence_length) mask_prob mask_length min_masks u gen = Ok m /\
    Forall2 (is_span_row (Z.to_nat sequence_length) (Z.to_nat mask_length)
               (Z.to_nat num)) starts m.
Proof.
  intros Hl Hnum num starts.
  pose proof (num_masked_spans_le_offsets sequence_length mask_prob mask_length
                min_masks u Hl) as Hle. fold num in Hle, Hnum.
  unfold _compute_mask. fold num.
  destruct (Z.ltb_spec mask_length 1); [lia|].
  destruct (Z.gtb_spec mask_length sequence_length); [lia|].
  rewrite multinomial_ones by lia. fold starts. cbn [bind].
  assert (length starts = B) as HB by (unfold starts; by rewrite length_map, length_seq).
  assert (Forall (fun st => length st = Z.to_nat num /\ NoDup st /\
            forall s, s ∈ st -> (s + Z.to_nat mask_length <= Z.to_nat sequence_length)%nat)
            starts) as HF.
  { apply Forall_forall. intros st Hst.
    apply list_elem_of_fmap in Hst as (r & -> & Hr).
    set (K := Z.to_nat (sequence_length - (mask_length - 1))).
    split; [|split].
    - apply draw_length. rewrite length_seq. unfold K. lia.
    - apply draw_NoDup, NoDup_seq.
    - intros s Hs. apply draw_elem_of, elem_of_seq in Hs. unfold K in Hs. lia. }
  clearbody starts. subst B. by apply scatter_starts.
Qed.

Lemma compute_mask_invalid (B : nat) (sequence_length : Z) (mask_prob : Q)
    (mask_length min_masks : Z) (u : Q) (gen : nat -> nat -> nat) :
  mask_length < 1 \/ mask_length > sequence_length ->
  _compute_mask (B, sequence_length) mask_prob mask_length min_masks u gen
    = Raise ValueError.
Proof.
  intros H. unfold _compute_mask.
  destruct (Z.ltb_spec mask_length 1); [done|].
  destruct (Z.gtb_spec mask_length sequence_length); [done|lia].
Qed.


(** ** Counting masked positions and spans *)

Definition true_positions (row : list bool) : list nat :=
  filter (fun p => row !! p = Some true) (seq 0 (length row)).

Lemma length_filter_fmap {A B : Type} (f : A -> B) (P : B -> Prop)
    `{!forall y, Decision (P y)} (l : list A) :
  length (filter P (f <$> l)) = length (filter (fun x => P (f x)) l).
Proof.
  induction l as [|a l IH]; [done|]. rewrite fmap_cons.
  rewrite !filter_cons. destruct (decide (P (f a))); simpl; by rewrite IH.
Qed.

Lemma count_true_positions (row : list bool) :
  count_true row = length (true_positions row).
Proof.
  unfold count_true, true_positions.
  induction row as [|b row IH]; [done|].
  cbn [length]. rewrite <- cons_seq, <- fmap_S_seq, !filter_cons.
  assert (length (filter (fun p => (b :: row) !! p = Some true) (S <$> seq 0 (length row)))
          = length (filter (fun b => b = true) row)) as Hs.
  { rewrite length_filter_fmap. by rewrite IH. }
  destruct b; repeat case_decide; simpl in *; try congruence; by rewrite Hs.
Qed.

Lemma count_true_le (row : list bool) : (count_true row <= length row)%nat.
Proof. apply length_filter. Qed.

Lemma NoDup_incl_length {A : Type} (l k : list A) :
  NoDup l -> (forall x, x ∈ l -> x ∈ k) -> (length l <= length k)%nat.
Proof. intros Hnd Hsub. by apply submseteq_length, NoDup_submseteq. Qed.



Section span_row.
Context {T L n : nat} {st : list nat} {row : list bool}.
Hypothesis Hrow : is_span_row T L n st row.



End span_row.

(** ** Every admissible family of starts is a possible outcome *)

Lemma multinomial_complete (K : nat) (num : Z) (targets : list (list nat)) :
  1 <= num ->
  Forall (fun st => length st = Z.to_nat num /\ NoDup st /\
                    forall s, s ∈ st -> (s < K)%nat) targets ->
  exists gen,
    map (fun r => draw (seq 0 K) (Z.to_nat num) (gen r) 0) (seq 0 (length targets))
    = targets.
Proof.
  intros Hnum Htargets.
  assert (exists gs : list (nat -> nat),
            Forall2 (fun st g => draw (seq 0 K) (Z.to_nat num) g 0 = st) targets gs)
    as [gs Hgs].
  { induction Htargets as [|st targets (Hlen & Hnd & Hrange) _ [gs IH]].
    - exists []. constructor.
    - destruct (draw_complete st (seq 0 K) Hnd) as [g Hg].
      { intros s Hs. apply elem_of_seq. specialize (Hrange s Hs). lia. }
      exists (g :: gs). constructor; [|done]. by rewrite <- Hlen. }
  exists (fun r => default (fun _ => 0%nat) (gs !! r)).
  apply list_eq. intros r. rewrite list_lookup_fmap.
  destruct (targets !! r) as [st|] eqn:Hst.
  - destruct (Forall2_lookup_l _ _ _ _ _ Hgs Hst) as (g & Hg & Hdraw).
    rewrite lookup_seq_lt by (by eapply lookup_lt_Some). simpl.
    rewrite Hg. simpl. by rewrite Hdraw.
  - apply lookup_ge_None in Hst. rewrite lookup_seq_ge by lia. done.
Qed.

Lemma compute_mask_any_starts (sequence_length : Z) (mask_prob : Q)
    (mask_length min_masks : Z) (u : Q) (targets : list (list nat)) :
  1 <= mask_length <= sequence_length ->
  1 <= num_masked_spans sequence_length mask_prob mask_length min_masks u ->
  let num := num_masked_spans sequence_length mask_prob mask_length min_masks u in
  Forall (fun st => length st = Z.to_nat num /\ NoDup st /\
            forall s, s ∈ st -> Z.of_nat s <= sequence_length - mask_length) targets ->
  exists gen m,
    _compute_mask (length targets, sequence_length) mask_prob mask_length min_masks u gen
      = Ok m /\
    Forall2 (is_span_row (Z.to_nat sequence_length) (Z.to_nat mask_length) (Z.to_nat num))
            targets m.
Proof.
  intros Hl Hnum num Htargets.
  destruct (multinomial_complete (Z.to_nat (sequence_length - (mask_length - 1))) num
              targets Hnum) as [gen Hgen].
  { eapply Forall_impl; [exact Htargets|]. cbv beta.
    intros st (Hlen & Hnd & Hrange). split; [done|]. split; [done|].
    intros s Hs. specialize (Hrange s Hs). lia. }
  destruct (compute_mask_ok (length targets) sequence_length mask_prob mask_length
              min_masks u gen Hl Hnum) as (m & Hm & Hrows).
  fold num in Hrows. rewrite Hgen in Hrows. by exists gen, m.
Qed.

(** ** The masker on concrete inputs *)

Example compute_mask_example :
  _compute_mask (2%nat, 12) (8 # 10) 3 2 (1 # 2) (fun r i => (r + 2 * i + 4)%nat)
  = Ok [[true; true; true; false; true; true; true; true; true; true; false; false];
        [false; true; true; true; false; true; true; true; true; true; true; false]].
Proof. reflexivity. Qed.

(** Overlapping spans merge: starts 0 and 1 with [mask_length = 3]. *)
Example compute_mask_overlap :
  _compute_mask (1%nat, 6) (8 # 10) 3 2 0 (fun _ _ => 0%nat)
  = Ok [[true; true; true; true; false; false]].
Proof. reflexivity. Qed.

Example compute_mask_length_0 :
  _compute_mask (1%nat, 6) (8 # 10) 0 2 0 (fun _ _ => 0%nat) = Raise ValueError.
Proof. reflexivity. Qed.

Example compute_mask_length_too_long :
  _compute_mask (1%nat, 6) (8 # 10) 7 2 0 (fun _ _ => 0%nat) = Raise ValueError.
Proof. reflexivity. Qed.

(** The call of [Hubert.mask] on 10 to 19 frames: the two spans asked for do
    not fit and one is left. *)
Example num_masked_spans_clamped :
  num_masked_spans 15 (8 # 10) 10 2 (1 # 2) = 1.
Proof. reflexivity. Qed.

(** ** The claims about the span masker *)










Example compute_mask_no_spans_example :
  _compute_mask (1%nat, 100) (5 # 100) 10 0 (1 # 4) (fun _ _ => 0%nat)
  = Raise RuntimeError.
Proof. reflexivity. Qed.

(** ** Further facts about the returned mask *)

Lemma lookup_not_true (row : list bool) (p : nat) :
  (p < length row)%nat -> row !! p <> Some true -> row !! p = Some false.
Proof.
  intros Hp Hnt. destruct (lookup_lt_is_Some_2 row p Hp) as [[|] Hb]; [done|done].
Qed.

Lemma length_flat_map_const {A B : Type} (f : A -> list B) (L : nat) (l : list A) :
  (forall a, length (f a) = L) -> length (flat_map f l) = (length l * L)%nat.
Proof.
  intros Hf. induction l as [|a l IH]; simpl; [done|].
  by rewrite length_app, Hf, IH.
Qed.

Lemma length_filter_ne (l : list nat) (x : nat) :
  NoDup l -> x ∈ l -> S (length (filter (fun y => y <> x) l)) = length l.
Proof.
  induction 1 as [|a l Ha Hnd IH]; intros Hx; [by apply elem_of_nil in Hx|].
  rewrite filter_cons. destruct (decide (a <> x)) as [Hne|Heq].
  - apply elem_of_cons in Hx as [->|Hx]; [done|]. simpl. by rewrite IH.
  - assert (a = x) as -> by (by destruct (decide (a = x))).
    simpl. f_equal. f_equal. apply filter_Forall_id, Forall_forall.
    intros y Hy ->. done.
Qed.

Lemma list_min_exists (l : list nat) :
  l <> [] -> exists m, m ∈ l /\ forall y, y ∈ l -> (m <= y)%nat.
Proof.
  induction l as [|a l IH]; [done|]. intros _.
  destruct l as [|b l].
  - exists a. split; [by left|]. intros y Hy. apply list_elem_of_singleton in Hy. lia.
  - destruct IH as (m & Hm & Hmin); [done|].
    destruct (le_lt_dec a m) as [Hle|Hlt].
    + exists a. split; [by left|]. intros y [->|Hy]%elem_of_cons; [done|].
      specialize (Hmin y Hy). lia.
    + exists m. split; [by right|]. intros y [->|Hy]%elem_of_cons; [lia|].
      by apply Hmin.
Qed.

Section span_row_bounds.
Context {T L n : nat} {st : list nat} {row : list bool}.
Hypothesis Hrow : is_span_row T L n st row.

Lemma span_row_true_positions (p : nat) :
  p ∈ true_positions row <-> exists s, s ∈ st /\ (s <= p < s + L)%nat.
Proof.
  unfold true_positions. rewrite list_elem_of_filter, elem_of_seq.
  rewrite (row_masked _ _ _ _ _ Hrow). split; [by intros [? _]|].
  intros Hs. split; [done|]. split; [lia|].
  apply (row_masked _ _ _ _ _ Hrow) in Hs. apply lookup_lt_Some in Hs. lia.
Qed.

Lemma span_row_count_true_le : (count_true row <= n * L)%nat.
Proof.
  rewrite count_true_positions, <- (starts_length _ _ _ _ _ Hrow).
  rewrite <- (length_flat_map_const (fun s => map (Nat.add s) (seq 0 L)) L st)
    by (intros s; by rewrite length_map, length_seq).
  apply NoDup_incl_length; [apply NoDup_filter, NoDup_seq|].
  intros p Hp. apply elem_of_mask_idxs. by apply span_row_true_positions.
Qed.

Lemma span_row_count_true_ge : (0 < L)%nat -> (0 < n)%nat -> (L + n - 1 <= count_true row)%nat.
Proof.
  intros HL Hn.
  destruct (list_min_exists st) as (s0 & Hs0 & Hmin).
  { intros ->. pose proof (starts_length _ _ _ _ _ Hrow) as Hlen. simpl in Hlen. lia. }
  pose proof (starts_NoDup _ _ _ _ _ Hrow) as Hnd.
  set (first := map (Nat.add s0) (seq 0 L)).
  set (others := map (fun s => (s + L - 1)%nat) (filter (fun s => s <> s0) st)).
  assert (length (first ++ others) = (L + n - 1)%nat) as <-.
  { rewrite length_app. unfold first, others. rewrite !length_map, length_seq.
    pose proof (length_filter_ne st s0 Hnd Hs0) as Hf.
    rewrite (starts_length _ _ _ _ _ Hrow) in Hf. lia. }
  rewrite count_true_positions. apply NoDup_incl_length.
  - apply NoDup_app. split; [|split].
    + apply NoDup_fmap_2; [intros a b; lia|apply NoDup_seq].
    + intros p (o & -> & Ho)%list_elem_of_fmap (s & Hp & Hs)%list_elem_of_fmap.
      apply elem_of_seq in Ho. apply list_elem_of_filter in Hs as [Hne Hs].
      specialize (Hmin s Hs). lia.
    + apply NoDup_fmap_2_strong; [|by apply NoDup_filter].
      intros a b Ha Hb Hab. lia.
  - intros p [Hp|Hp]%elem_of_app; apply span_row_true_positions.
    + apply list_elem_of_fmap in Hp as (o & -> & Ho). apply elem_of_seq in Ho.
      exists s0. split; [done|lia].
    + apply list_elem_of_fmap in Hp as (s & -> & Hs).
      apply list_elem_of_filter in Hs as [_ Hs]. exists s. split; [done|lia].
Qed.

End span_row_bounds.

(** A row built from a single span. *)
Lemma single_span_row (T L : nat) (st : list nat) (row : list bool) :
  is_span_row T L 1 st row ->
  exists s, (s + L <= T)%nat /\
    row = replicate s false ++ replicate L true ++ replicate (T - s - L) false.
Proof.
  intros [Hlen Hnd Hrange Hrl Hmask].
  destruct st as [|s [|? ?]]; try discriminate Hlen.
  assert (s + L <= T)%nat as Hs by (apply Hrange; by left).
  exists s. split; [done|]. apply list_eq. intros p.
  assert (row !! p = Some true <-> (s <= p < s + L)%nat) as Hp.
  { rewrite Hmask. split.
    - by intros (s' & ->%list_elem_of_singleton & ?).
    - intros ?. exists s. split; [by left|done]. }
  destruct (decide (p < s)%nat) as [H1|H1].
  { rewrite lookup_app_l by (rewrite length_replicate; lia).
    rewrite lookup_replicate_2 by lia. apply lookup_not_true; [lia|]. rewrite Hp. lia. }
  rewrite lookup_app_r by (rewrite length_replicate; lia). rewrite length_replicate.
  destruct (decide (p < s + L)%nat) as [H2|H2].
  { rewrite lookup_app_l by (rewrite length_replicate; lia).
    rewrite lookup_replicate_2 by lia. apply Hp. lia. }
  rewrite lookup_app_r by (rewrite length_replicate; lia). rewrite length_replicate.
  destruct (decide (p < T)%nat) as [H3|H3].
  { rewrite lookup_replicate_2 by lia. apply lookup_not_true; [lia|]. rewrite Hp. lia. }
  rewrite (proj1 (lookup_replicate_None _ _ _)) by lia.
  apply lookup_ge_None. lia.
Qed.

(** X1: lines 196-198 and 212-225.  For a call that returns a mask, the
    spans fit into a row ([num_masked_spans * mask_length <= sequence_length],
    as the comment "make sure num masked indices <= sequence_length" says),
    and every row has between [mask_length + num_masked_spans - 1] and
    [num_masked_spans * mask_length] masked positions. *)
Theorem compute_mask_masked_range (B : nat) (sequence_length : Z) (mask_prob : Q)
    (mask_length min_masks : Z) (u : Q) (gen : nat -> nat -> nat) :
  1 <= mask_length <= sequence_length ->
  1 <= num_masked_spans sequence_length mask_prob mask_length min_masks u ->
  let num := num_masked_spans sequence_length mask_prob mask_length min_masks u in
  num * mask_length <= sequence_length /\
  exists m,
    _compute_mask (B, sequence_length) mask_prob mask_length min_masks u gen = Ok m /\
    forall row, row ∈ m ->
      mask_length + num - 1 <= Z.of_nat (count_true row) <= num * mask_length.
Proof.
  intros Hl Hnum num.
  split; [by apply num_masked_spans_fits|].
  destruct (compute_mask_ok B sequence_length mask_prob mask_length min_masks u gen
              Hl Hnum) as (m & Hm & Hrows).
  exists m. split; [done|]. intros row Hin.
  apply list_elem_of_lookup_1 in Hin as [r Hr].
  destruct (Forall2_lookup_r _ _ _ _ _ Hrows Hr) as (st & _ & Hst).
  pose proof (span_row_count_true_le Hst) as Hle.
  pose proof (span_row_count_true_ge Hst ltac:(lia) ltac:(fold num; lia)) as Hge.
  fold num in Hle, Hge. split; [lia|].
  replace (num * mask_length) with (Z.of_nat (Z.to_nat num * Z.to_nat mask_length)) by lia.
  lia.
Qed.

Lemma compute_mask_masked_range_witness :
  exists m,
    _compute_mask (2%nat, 12) (8 # 10) 3 2 (1 # 2) (fun r i => (r + 2 * i + 4)%nat) = Ok m /\
    forall row, row ∈ m -> 3 + 3 - 1 <= Z.of_nat (count_true row) <= 3 * 3.
Proof.
  destruct (compute_mask_masked_range 2 12 (8 # 10) 3 2 (1 # 2)
              (fun r i => (r + 2 * i + 4)%nat)) as (_ & m & Hm & Hrows).
  - lia.
  - vm_compute. discriminate.
  - exists m. split; [exact Hm|exact Hrows].
Defined.

(** X2: lines 187-198.  When [mask_length] equals [sequence_length] at most
    one span fits, it starts at offset 0, and every row of the returned mask
    is entirely masked. *)
Theorem compute_mask_whole_row (B : nat) (sequence_length : Z) (mask_prob : Q)
    (min_masks : Z) (u : Q) (gen : nat -> nat -> nat) :
  1 <= sequence_length ->
  1 <= num_masked_spans sequence_length mask_prob sequence_length min_masks u ->
  _compute_mask (B, sequence_length) mask_prob sequence_length min_masks u gen
  = Ok (replicate B (replicate (Z.to_nat sequence_length) true)).
Proof.
  intros Hl Hnum.
  pose proof (num_masked_spans_fits sequence_length mask_prob sequence_length
                min_masks u ltac:(lia)) as Hfit.
  assert (num_masked_spans sequence_length mask_prob sequence_length min_masks u = 1)
    as Hone by nia.
  destruct (compute_mask_ok B sequence_length mask_prob sequence_length min_masks u gen
              ltac:(lia) Hnum) as (m & Hm & Hrows).
  rewrite Hm. f_equal. rewrite Hone in Hrows. change (Z.to_nat 1) with 1%nat in Hrows.
  apply Forall2_length in Hrows as Hlen. rewrite length_map, length_seq in Hlen.
  rewrite Hlen. symmetry. apply replicate_as_Forall. split; [done|].
  apply Forall_forall. intros row Hin. symmetry.
  apply list_elem_of_lookup_1 in Hin as [r Hr].
  destruct (Forall2_lookup_r _ _ _ _ _ Hrows Hr) as (st & _ & Hst).
  destruct (single_span_row _ _ _ _ Hst) as (s & Hs & ->).
  replace s with 0%nat by lia. simpl.
  replace (Z.to_nat sequence_length - 0 - Z.to_nat sequence_length)%nat with 0%nat by lia.
  simpl. by rewrite app_nil_r.
Qed.

Lemma compute_mask_whole_row_witness :
  _compute_mask (2%nat, 5) (8 # 10) 5 2 (1 # 2) (fun _ _ => 3%nat)
  = Ok (replicate 2 (replicate 5 true)).
Proof.
  apply (compute_mask_whole_row 2 5 (8 # 10) 2 (1 # 2) (fun _ _ => 3%nat)).
  - lia.
  - vm_compute. discriminate.
Defined.

(** The call made by [Hubert.mask]: [mask_prob = 0.8], [mask_length = 10],
    [min_masks = 2]. *)
Lemma num_masked_spans_hubert (T : Z) (u : Q) :
  10 <= T ->
  let num := num_masked_spans T (8 # 10) 10 2 u in
  (T < 20 -> num = 1) /\ (20 <= T -> 2 <= num).
Proof.
  intros HT num. unfold num. rewrite num_masked_spans_unfold. cbv zeta.
  match goal with
  | |- context [Z.gtb ?a ?b] => destruct (Z.gtb_spec a b) as [Hgt|Hle]
  end.
  - split; intros H.
    + symmetry. apply (Z.div_unique T 10 1 (T - 10)); lia.
    + apply Z.div_le_lower_bound; lia.
  - split; intros H; lia.
Qed.

End SpanMasker.

(** * The transformer stack: [TransformerEncoder] *)

Module TransformerEncoder.

(** Python's [l[:stop]]: the whole list for [None], the first [stop] items
    for [stop >= 0], all but the last [-stop] items for [stop < 0]. *)
Definition slice_to {A : Type} (l : list A) (stop : option Z) : list A :=
  match stop with
  | None => l
  | Some n =>
      if n <? 0 then take (Z.to_nat (Z.of_nat (length l) + n)) l
      else take (Z.to_nat n) l
  end.

Section stack.
Context {Tensor Layer Mask : Type}.

(** [layer(output, src_mask=mask, src_key_padding_mask=src_key_padding_mask)]:
    one [nn.TransformerEncoderLayer] with its own parameters. *)
Variable call : Layer -> Tensor -> option Mask -> option Mask -> Tensor.

Record t : Type := mk {
  layers : list Layer;
  num_layers : Z
}.

(** [copy.deepcopy(encoder_layer) for _ in range(num_layers)] *)
Definition __init__ (encoder_layer : Layer) (num_layers : Z) : t :=
  {| layers := replicate (Z.to_nat num_layers) encoder_layer;
     num_layers := num_layers |}.

Definition forward (self : t) (src : Tensor) (mask src_key_padding_mask : option Mask)
    (output_layer : option Z) : Tensor :=
  foldl (fun output layer => call layer output mask src_key_padding_mask)
        src (slice_to (layers self) output_layer).

(** The value of [output] after each iteration of the loop of [forward]. *)
Fixpoint loop_states (output : Tensor) (mask kpm : option Mask) (ls : list Layer)
    : list Tensor :=
  match ls with
  | [] => []
  | layer :: ls' =>
      let output := call layer output mask kpm in
      output :: loop_states output mask kpm ls'
  end.

End stack.

Arguments t : clear implicits.

Lemma init_layers_length {Layer : Type} (encoder_layer : Layer) (n : Z) :
  length (layers (__init__ encoder_layer n)) = Z.to_nat n.
Proof. apply length_replicate. Qed.

Example slice_to_7 : slice_to [1; 2; 3; 4; 5; 6; 7; 8; 9; 10; 11; 12] (Some 7)
                     = [1; 2; 3; 4; 5; 6; 7].
Proof. reflexivity. Qed.

Example slice_to_None : slice_to [1; 2; 3] None = [1; 2; 3].
Proof. reflexivity. Qed.

Example slice_to_negative : slice_to [1; 2; 3] (Some (-1)) = [1; 2].
Proof. reflexivity. Qed.

Section stack_facts.
Context {Tensor Layer Mask : Type}.
Variable call : Layer -> Tensor -> option Mask -> option Mask -> Tensor.
Variables mask kpm : option Mask.

Let step (output : Tensor) (layer : Layer) : Tensor := call layer output mask kpm.

Lemma loop_states_lookup (ls : list Layer) : forall (output : Tensor) (n : nat),
  (n < length ls)%nat ->
  loop_states call output mask kpm ls !! n = Some (foldl step output (take (S n) ls)).
Proof.
  induction ls as [|l ls IH]; intros output n Hn; simpl in *; [lia|].
  destruct n as [|n]; simpl.
  - done.
  - apply IH. lia.
Qed.

Lemma loop_states_length (ls : list Layer) : forall output : Tensor,
  length (loop_states call output mask kpm ls) = length ls.
Proof. induction ls as [|l ls IH]; intros output; simpl; [done|]. by rewrite IH. Qed.

Lemma forward_None (self : t Layer) (src : Tensor) :
  forward call self src mask kpm None = foldl step src (layers self).
Proof. reflexivity. Qed.

Lemma forward_Some (self : t Layer) (src : Tensor) (n : Z) :
  0 <= n ->
  forward call self src mask kpm (Some n) = foldl step src (take (Z.to_nat n) (layers self)).
Proof.
  intros Hn. unfold forward, slice_to.
  destruct (Z.ltb_spec n 0); [lia|done].
Qed.

Lemma forward_resume (self : t Layer) (src : Tensor) (n : Z) :
  0 <= n ->
  forward call self src mask kpm None =
  foldl step (forward call self src mask kpm (Some n)) (drop (Z.to_nat n) (layers self)).
Proof.
  intros Hn. rewrite forward_None, forward_Some by done.
  by rewrite <- foldl_app, take_drop.
Qed.

(** C4 (amended): on a stack of 12 layers, [forward] with [output_layer = n]
    ([1 <= n <= 12]) applies exactly the first [n] layers in order, and its
    result is the value the loop of a full run holds after its [n]-th
    iteration; with [output_layer] omitted all 12 layers are applied; and the
    full output is the remaining layers applied to the [output_layer = n]
    result (for [n = 7]: layers 8 to 12 applied to the 7-layer result). *)
Theorem forward_output_layer (self : t Layer) (src : Tensor) (n : Z) :
  length (layers self) = 12%nat ->
  1 <= n <= 12 ->
  let out_n := forward call self src mask kpm (Some n) in
  let full := forward call self src mask kpm None in
  length (take (Z.to_nat n) (layers self)) = Z.to_nat n /\
  out_n = foldl step src (take (Z.to_nat n) (layers self)) /\
  loop_states call src mask kpm (layers self) !! (Z.to_nat n - 1)%nat = Some out_n /\
  full = foldl step src (layers self) /\
  loop_states call src mask kpm (layers self) !! 11%nat = Some full /\
  full = foldl step out_n (drop (Z.to_nat n) (layers self)).
Proof.
  intros Hlen Hn out_n full. subst out_n full.
  split; [rewrite length_take; lia|].
  split; [apply forward_Some; lia|].
  split.
  { rewrite loop_states_lookup by lia. rewrite forward_Some by lia.
    by replace (S (Z.to_nat n - 1)) with (Z.to_nat n) by lia. }
  split; [apply forward_None|].
  split; [|apply forward_resume; lia].
  rewrite loop_states_lookup by lia. rewrite forward_None.
  by rewrite take_ge by lia.
Qed.

End stack_facts.

Lemma forward_output_layer_witness :
  forward (fun (w : Z) (x : Z) (_ _ : option unit) => w * x + 1)
          (mk [1; 2; 3; 4; 5; 6; 7; 8; 9; 10; 11; 12] 12) 1 None None (Some 7)
  = foldl (fun x w => w * x + 1) 1 [1; 2; 3; 4; 5; 6; 7].
Proof.
  apply (forward_output_layer (fun (w : Z) (x : Z) (_ _ : option unit) => w * x + 1)
           None None (mk [1; 2; 3; 4; 5; 6; 7; 8; 9; 10; 11; 12] 12) 1 7).
  - reflexivity.
  - lia.
Defined.

(** C4 as stated fails: nothing makes the 7-layer result differ from the
    full output.  A stack whose layers all return the zero tensor (for
    instance layers with all parameters zero) gives the same result after 7
    and after 12 layers. *)
Lemma forward_output_layer_7_may_equal_full :
  ~ (forall (Tensor Layer Mask : Type)
            (call : Layer -> Tensor -> option Mask -> option Mask -> Tensor)
            (self : t Layer) (src : Tensor) (mask kpm : option Mask),
        length (layers self) = 12%nat ->
        forward call self src mask kpm (Some 7) <> forward call self src mask kpm None).
Proof.
  intros H.
  apply (H (list Q) unit unit (fun _ x _ _ => map (fun _ => 0%Q) x)
           (__init__ tt 12) [1%Q; 2%Q] None None); reflexivity.
Qed.

(** ** [output_layer] outside [1 .. num_layers], and a freshly built stack *)

Section stack_edges.
Context {Tensor Layer Mask : Type}.
Variable call : Layer -> Tensor -> option Mask -> option Mask -> Tensor.
Variables mask kpm : option Mask.

Let step (output : Tensor) (layer : Layer) : Tensor := call layer output mask kpm.

Lemma foldl_replicate_iter (layer : Layer) (n : nat) (src : Tensor) :
  foldl step src (replicate n layer) = Nat.iter n (fun x => step x layer) src.
Proof.
  revert src. induction n as [|n IH]; intros src; [done|].
  rewrite Nat.iter_succ_r. simpl. apply IH.
Qed.

(** X3: lines 167-172, the slice [self.layers[:output_layer]].  With
    [output_layer = 0] no layer runs and the input comes back unchanged; any
    [output_layer] at or above the number of layers gives the full output; a
    negative [output_layer = -k] leaves out the last [k] layers, and returns
    the input unchanged once [k] reaches the number of layers. *)
Theorem forward_output_layer_edges (self : t Layer) (src : Tensor) :
  forward call self src mask kpm (Some 0) = src /\
  (forall n, Z.of_nat (length (layers self)) <= n ->
     forward call self src mask kpm (Some n) = forward call self src mask kpm None) /\
  (forall k, 0 < k ->
     forward call self src mask kpm (Some (- k)) =
     foldl step src (take (length (layers self) - Z.to_nat k) (layers self))) /\
  (forall k, Z.of_nat (length (layers self)) <= k -> 0 < k ->
     forward call self src mask kpm (Some (- k)) = src).
Proof.
  assert (forall k, 0 < k ->
     forward call self src mask kpm (Some (- k)) =
     foldl step src (take (length (layers self) - Z.to_nat k) (layers self))) as Hneg.
  { intros k Hk. unfold forward, slice_to.
    destruct (Z.ltb_spec (- k) 0); [|lia]. do 2 f_equal. lia. }
  split; [done|]. split; [|split; [exact Hneg|]].
  - intros n Hn. rewrite forward_Some, forward_None by lia.
    by rewrite take_ge by lia.
  - intros k Hk Hpos. rewrite Hneg by done.
    by replace (length (layers self) - Z.to_nat k)%nat with 0%nat by lia.
Qed.

(** X4: lines 155-158 and 167-172.  [__init__] makes [num_layers] deep copies
    of the one layer it is given (none for [num_layers <= 0]), so on a
    freshly built stack [forward] applies that same layer [num_layers] times,
    and [min output_layer num_layers] times for an [output_layer >= 0]. *)
Theorem forward_fresh_stack (encoder_layer : Layer) (num_layers : Z) (src : Tensor) :
  let self := __init__ encoder_layer num_layers in
  let layer := fun x => call encoder_layer x mask kpm in
  length (layers self) = Z.to_nat num_layers /\
  forward call self src mask kpm None = Nat.iter (Z.to_nat num_layers) layer src /\
  forall n, 0 <= n ->
    forward call self src mask kpm (Some n)
    = Nat.iter (Z.to_nat (Z.min n (Z.max 0 num_layers))) layer src.
Proof.
  intros self layer. split; [apply length_replicate|]. split.
  - rewrite forward_None. apply foldl_replicate_iter.
  - intros n Hn. rewrite forward_Some by done. unfold self, __init__. cbn [layers].
    rewrite take_replicate, foldl_replicate_iter. f_equal. lia.
Qed.

End stack_edges.

End TransformerEncoder.

(** * The convolutional front end: [FeatureExtractor] *)

Module FeatureExtractor.

(** A tensor of shape [[B, C, L]]: batch items, channels, samples. *)
Definition Tensor3 : Type := list (list (list Q)).

Definition has_shape (x : Tensor3) (B C L : nat) : Prop :=
  length x = B /\
  Forall (fun item => length item = C /\ Forall (fun row => length row = L) item) x.

(** ** [nn.Conv1d(in_channels, out_channels, kernel_size, stride, bias=False)] *)

Record Conv1d : Type := {
  in_channels : nat;
  out_channels : nat;
  kernel_size : nat;
  stride : nat;
  weight : nat -> nat -> nat -> Q   (* [weight[o][c][j]] *)
}.

Definition Qsum (l : list Q) : Q := foldr Qplus 0%Q l.

(** The kernel is slid over the input by [stride] for as long as it fits. *)
Fixpoint window_starts (fuel pos L k s : nat) : list nat :=
  match fuel with
  | O => []
  | S fuel' =>
      if (pos + k <=? L)%nat then pos :: window_starts fuel' (pos + s) L k s else []
  end.

Definition input_length (item : list (list Q)) : nat :=
  match item with
  | [] => 0
  | row :: _ => length row
  end.

Definition correlate (conv : Conv1d) (item : list (list Q)) (o pos : nat) : Q :=
  Qsum (map (fun c =>
          Qsum (map (fun j => weight conv o c j * nth (pos + j) (nth c item []) 0)%Q
                    (seq 0 (kernel_size conv))))
        (seq 0 (in_channels conv))).

(** One batch item.  torch refuses an input with the wrong number of
    channels and an input shorter than the kernel. *)
Definition conv1d_item (conv : Conv1d) (item : list (list Q)) : result (list (list Q)) :=
  if negb (length item =? in_channels conv)%nat then Raise RuntimeError
  else
    let L := input_length item in
    if (L <? kernel_size conv)%nat then Raise RuntimeError
    else
      Ok (map (fun o =>
                 map (correlate conv item o)
                     (window_starts (S L) 0 L (kernel_size conv) (stride conv)))
              (seq 0 (out_channels conv))).

Definition conv1d (conv : Conv1d) (x : Tensor3) : result Tensor3 :=
  mapM (conv1d_item conv) x.

(** ** [nn.GroupNorm(num_groups, num_channels)] *)

Record GroupNorm : Type := {
  num_groups : nat;
  num_channels : nat;
  eps : Q;
  gamma : nat -> Q;
  beta : nat -> Q
}.

Definition mean (l : list Q) : Q := (Qsum l / inject_Z (Z.of_nat (length l)))%Q.

Section activations.

(** The Gaussian error linear unit and the reciprocal square root. *)
Variables (gelu : Q -> Q) (rsqrt : Q -> Q).

Definition group_norm_item (gn : GroupNorm) (item : list (list Q))
    : result (list (list Q)) :=
  if negb (length item =? num_channels gn)%nat then Raise RuntimeError
  else
    let per_group := (num_channels gn / num_groups gn)%nat in
    Ok (imap (fun c row =>
                let g := (c / per_group)%nat in
                let group := concat (take per_group (drop (g * per_group) item)) in
                let mu := mean group in
                let var := mean (map (fun v => (v - mu) * (v - mu))%Q group) in
                map (fun v => (v - mu) * rsqrt (var + eps gn) * gamma gn c + beta gn c)%Q
                    row)
             item).

Definition group_norm (gn : GroupNorm) (x : Tensor3) : result Tensor3 :=
  mapM (group_norm_item gn) x.

Definition F_gelu (x : Tensor3) : Tensor3 := map (map (map gelu)) x.

(** ** The module *)

Record t : Type := {
  conv0 : Conv1d;
  norm0 : GroupNorm;
  conv1 : Conv1d;
  conv2 : Conv1d;
  conv3 : Conv1d;
  conv4 : Conv1d;
  conv5 : Conv1d;
  conv6 : Conv1d
}.

(** [__init__] fixes every shape; the learned values are its arguments. *)
Definition __init__ (w0 w1 w2 w3 w4 w5 w6 : nat -> nat -> nat -> Q)
    (norm_eps : Q) (norm_weight norm_bias : nat -> Q) : t :=
  {| conv0 := Build_Conv1d 1 512 10 5 w0;
     norm0 := Build_GroupNorm 512 512 norm_eps norm_weight norm_bias;
     conv1 := Build_Conv1d 512 512 3 2 w1;
     conv2 := Build_Conv1d 512 512 3 2 w2;
     conv3 := Build_Conv1d 512 512 3 2 w3;
     conv4 := Build_Conv1d 512 512 3 2 w4;
     conv5 := Build_Conv1d 512 512 2 2 w5;
     conv6 := Build_Conv1d 512 512 2 2 w6 |}.

Definition forward (self : t) (x : Tensor3) : result Tensor3 :=
  x <-- conv1d (conv0 self) x ;;
  x <-- group_norm (norm0 self) x ;;
  let x := F_gelu x in
  x <-- conv1d (conv1 self) x ;;
  let x := F_gelu x in
  x <-- conv1d (conv2 self) x ;;
  let x := F_gelu x in
  x <-- conv1d (conv3 self) x ;;
  let x := F_gelu x in
  x <-- conv1d (conv4 self) x ;;
  let x := F_gelu x in
  x <-- conv1d (conv5 self) x ;;
  let x := F_gelu x in
  x <-- conv1d (conv6 self) x ;;
  let x := F_gelu x in
  Ok x.

End activations.

(** The convolution output length as the specification gives it, per stage
    and composed over the seven stages. *)
Definition conv_out_length (L kernel stride : Z) : Z := (L - kernel) / stride + 1.

Definition kernels : list Z := [10; 3; 3; 3; 3; 2; 2].
Definition strides : list Z := [5; 2; 2; 2; 2; 2; 2].

Definition output_length (N : Z) : Z :=
  foldl (fun L '(k, s) => conv_out_length L k s) N (zip kernels strides).


Example conv1d_example :
  conv1d (Build_Conv1d 1 2 3 2 (fun o c j => inject_Z (Z.of_nat (o + j))))
         [[[1; 2; 3; 4; 5; 6; 7; 8]%Q]]
  = Ok [[[8; 14; 20]%Q; [14; 26; 38]%Q]].
Proof. reflexivity. Qed.

Example conv1d_too_short :
  conv1d (Build_Conv1d 1 2 3 2 (fun o c j => 1%Q)) [[[1; 2]%Q]] = Raise RuntimeError.
Proof. reflexivity. Qed.

(** One second of audio at 16 kHz, padded by 40 samples on each side. *)
Example output_length_one_second : output_length (16000 + 80) = 50.
Proof. reflexivity. Qed.

Example output_length_400 : output_length 400 = 1.
Proof. reflexivity. Qed.

(** ** Shapes through the stages *)

Lemma window_starts_nil (fuel pos L k s : nat) :
  (L < pos + k)%nat -> window_starts fuel pos L k s = [].
Proof.
  intros H. destruct fuel as [|fuel]; simpl; [done|].
  destruct (Nat.leb_spec (pos + k) L); [lia|done].
Qed.

Lemma window_starts_length (L k s : nat) : forall fuel pos,
  (0 < s)%nat -> (pos + k <= L)%nat -> (L - pos < fuel)%nat ->
  length (window_starts fuel pos L k s) = ((L - k - pos) / s + 1)%nat.
Proof.
  induction fuel as [|fuel IH]; intros pos Hs Hfit Hfuel; [lia|].
  simpl. destruct (Nat.leb_spec (pos + k) L); [|lia]. simpl.
  destruct (decide (pos + s + k <= L)%nat) as [Hnext|Hnext].
  - rewrite IH by lia.
    replace (L - k - pos)%nat with ((L - k - (pos + s)) + 1 * s)%nat by lia.
    rewrite Nat.div_add by lia. lia.
  - rewrite window_starts_nil by lia. rewrite Nat.div_small by lia. done.
Qed.

Lemma input_length_rows (item : list (list Q)) (C L : nat) :
  (0 < C)%nat -> length item = C -> Forall (fun row => length row = L) item ->
  input_length item = L.
Proof.
  intros HC Hlen Hrows. destruct Hrows as [|row item Hrow _]; simpl in *; [lia|done].
Qed.

Lemma has_shape_map (f : Q -> Q) (x : Tensor3) (B C L : nat) :
  has_shape x B C L -> has_shape (map (map (map f)) x) B C L.
Proof.
  intros [HB Hitems]. split; [by rewrite length_map|].
  apply Forall_fmap. eapply Forall_impl; [exact Hitems|]. cbv beta.
  intros item [HC Hrows]. simpl. split; [by rewrite length_map|].
  apply Forall_fmap. eapply Forall_impl; [exact Hrows|]. cbv beta.
  intros row Hrow. simpl. by rewrite length_map.
Qed.

Lemma mapM_has_shape (f : list (list Q) -> result (list (list Q)))
    (x : Tensor3) (B C L C' L' : nat) :
  has_shape x B C L ->
  (forall item, length item = C -> Forall (fun row => length row = L) item ->
     exists y, f item = Ok y /\ length y = C' /\ Forall (fun row => length row = L') y) ->
  exists y, mapM f x = Ok y /\ has_shape y B C' L'.
Proof.
  intros [HB Hitems] Hf.
  destruct (mapM_Forall_Ok f
              (fun _ y => length y = C' /\ Forall (fun row => length row = L') y) x)
    as (y & Hy & Hshape).
  { eapply Forall_impl; [exact Hitems|]. cbv beta. intros item [HC Hrows]. by apply Hf. }
  exists y. split; [done|]. split.
  - apply Forall2_length in Hshape. lia.
  - clear -Hshape. induction Hshape; constructor; done.
Qed.

Lemma conv1d_long (conv : Conv1d) (x : Tensor3) (B L : nat) :
  has_shape x B (in_channels conv) L ->
  (0 < in_channels conv)%nat -> (0 < stride conv)%nat ->
  (kernel_size conv <= L)%nat ->
  exists y, conv1d conv x = Ok y /\
    has_shape y B (out_channels conv) ((L - kernel_size conv) / stride conv + 1).
Proof.
  intros Hx HC Hs Hk. unfold conv1d. eapply mapM_has_shape; [exact Hx|].
  intros item Hlen Hrows. unfold conv1d_item.
  rewrite (input_length_rows item _ L HC Hlen Hrows).
  rewrite (proj2 (Nat.eqb_eq _ _) Hlen). cbn [negb].
  destruct (Nat.ltb_spec L (kernel_size conv)); [lia|].
  eexists. split; [done|]. split; [by rewrite length_map, length_seq|].
  apply Forall_fmap, Forall_forall. intros o _. unfold compose.
  rewrite length_map, window_starts_length by lia. f_equal. f_equal. lia.
Qed.

Lemma conv1d_short (conv : Conv1d) (x : Tensor3) (B L : nat) :
  has_shape x B (in_channels conv) L ->
  (0 < B)%nat -> (0 < in_channels conv)%nat ->
  (L < kernel_size conv)%nat ->
  conv1d conv x = Raise RuntimeError.
Proof.
  intros [HB Hitems] HBpos HC Hk. unfold conv1d. apply mapM_Raise.
  { intros ->. simpl in HB. lia. }
  eapply Forall_impl; [exact Hitems|]. cbv beta. intros item [Hlen Hrows].
  unfold conv1d_item.
  rewrite (input_length_rows item _ L HC Hlen Hrows).
  rewrite (proj2 (Nat.eqb_eq _ _) Hlen). simpl.
  destruct (Nat.ltb_spec L (kernel_size conv)); [done|lia].
Qed.

Lemma group_norm_shape (rsqrt : Q -> Q) (gn : GroupNorm) (x : Tensor3) (B L : nat) :
  has_shape x B (num_channels gn) L ->
  exists y, group_norm rsqrt gn x = Ok y /\ has_shape y B (num_channels gn) L.
Proof.
  intros Hx. unfold group_norm. eapply mapM_has_shape; [exact Hx|].
  intros item Hlen Hrows. unfold group_norm_item.
  rewrite (proj2 (Nat.eqb_eq _ _) Hlen). simpl.
  eexists. split; [done|]. split; [by rewrite length_imap|].
  apply Forall_forall. intros row (c & row0 & -> & Hc)%elem_of_lookup_imap.
  rewrite length_map. rewrite Forall_forall in Hrows.
  apply Hrows. by eapply list_elem_of_lookup_2.
Qed.

(** One convolution stage followed by GELU: it goes through exactly when the
    input is at least as long as the kernel. *)
Lemma conv_gelu_stage (gelu : Q -> Q) (conv : Conv1d) (x : Tensor3) (B L : nat) :
  has_shape x B (in_channels conv) L ->
  (0 < B)%nat -> (0 < in_channels conv)%nat -> (0 < stride conv)%nat ->
  if decide (kernel_size conv <= L)%nat
  then exists y, conv1d conv x = Ok y /\
         has_shape (F_gelu gelu y) B (out_channels conv)
                   ((L - kernel_size conv) / stride conv + 1)
  else conv1d conv x = Raise RuntimeError.
Proof.
  intros Hx HB HC Hs. case_decide as Hk.
  - destruct (conv1d_long conv x B L Hx HC Hs Hk) as (y & Hy & Hshape).
    exists y. split; [done|]. by apply has_shape_map.
  - apply (conv1d_short conv x B L); [done..|lia].
Qed.

Lemma output_length_unfold (N : Z) :
  output_length N =
  ((((((((N - 10) / 5 + 1 - 3) / 2 + 1 - 3) / 2 + 1 - 3) / 2 + 1 - 3) / 2 + 1
      - 2) / 2 + 1 - 2) / 2 + 1).
Proof. reflexivity. Qed.

Lemma conv_out_length_nat (L k s : nat) :
  (k <= L)%nat -> (0 < s)%nat ->
  Z.of_nat ((L - k) / s + 1) = conv_out_length (Z.of_nat L) (Z.of_nat k) (Z.of_nat s).
Proof.
  intros Hk Hs. unfold conv_out_length.
  rewrite Nat2Z.inj_add, Nat2Z.inj_div, Nat2Z.inj_sub by done. done.
Qed.

(** One stage of the proof of [forward_time_length]: [Hx] is the shape of
    the current tensor, [Hiff] relates [400 <= N] to a threshold on the
    current length, [HZ] gives the current length as a formula in [N]. *)
Ltac stage g Hx Hiff HZ T' L' :=
  match goal with
  | |- context [conv1d ?conv ?x] =>
      let Hst := fresh "Hst" in
      let Hk := fresh "Hk" in
      let y := fresh "y" in
      let Hy := fresh "Hy" in
      let Hiff' := fresh "Hiff" in
      let HZ' := fresh "HZ" in
      pose proof (conv_gelu_stage g conv x _ _ Hx) as Hst;
      cbn [in_channels out_channels kernel_size stride] in Hst;
      specialize (Hst ltac:(lia) ltac:(lia) ltac:(lia));
      case_decide as Hk;
      [ destruct Hst as (y & Hy & Hst); rewrite Hy; cbn [bind];
        clear Hx; rename Hst into Hx;
        match type of Hx with
        | has_shape _ _ _ ((?L - ?k) / ?s + 1)%nat =>
            match type of Hiff with
            | ?P <-> _ =>
                assert (P <-> (T' <= (L - k) / s + 1)%nat) as Hiff'
                  by (clear -Hiff Hk; zify; Z.to_euclidean_division_equations; lia)
            end;
            pose proof (conv_out_length_nat L k s Hk ltac:(lia)) as HZ';
            rewrite HZ in HZ'; clear Hiff HZ Hk Hy;
            rename Hiff' into Hiff; rename HZ' into HZ;
            set (L' := ((L - k) / s + 1)%nat) in *;
            try match goal with Hp : (1 <= _)%nat |- _ => clear Hp end;
            assert (1 <= L')%nat by (subst L'; lia);
            clearbody L'
        end
      | rewrite Hst; cbn [bind];
        split; [intros ?; exfalso; lia | intros _; reflexivity] ]
  end.



(** ** The downsampling in closed form *)

Lemma forward_shape (gelu rsqrt : Q -> Q)
    (w0 w1 w2 w3 w4 w5 w6 : nat -> nat -> nat -> Q)
    (norm_eps : Q) (norm_weight norm_bias : nat -> Q)
    (x : Tensor3) (B N : nat) :
  has_shape x B 1 N ->
  (0 < B)%nat ->
  let self := __init__ w0 w1 w2 w3 w4 w5 w6 norm_eps norm_weight norm_bias in
  ((400 <= N)%nat ->
   exists y, forward gelu rsqrt self x = Ok y /\
     1 <= output_length (Z.of_nat N) /\
     has_shape y B 512 (Z.to_nat (output_length (Z.of_nat N)))) /\
  ((N < 400)%nat -> forward gelu rsqrt self x = Raise RuntimeError).
Proof.
  intros Hx HB self. unfold forward, self. cbn [__init__ conv0 conv1 conv2 conv3 conv4
    conv5 conv6 norm0].
  (* conv0, norm0, gelu *)
  destruct (le_lt_dec 10 N) as [Hk0|Hk0]; cycle 1.
  { rewrite (conv1d_short (Build_Conv1d 1 512 10 5 w0) x B N Hx)
      by (cbn [in_channels kernel_size]; lia).
    cbn [bind]. split; [intros ?; lia|done]. }
  destruct (conv1d_long (Build_Conv1d 1 512 10 5 w0) x B N Hx) as (y0 & Hy0 & Hs0);
    cbn [in_channels out_channels kernel_size stride]; [lia..|].
  rewrite Hy0. cbn [bind].
  destruct (group_norm_shape rsqrt (Build_GroupNorm 512 512 norm_eps norm_weight norm_bias)
              y0 B _ Hs0) as (z0 & Hz0 & Hx1).
  rewrite Hz0. cbn [bind]. cbn [num_channels out_channels kernel_size stride] in Hx1.
  apply (has_shape_map gelu) in Hx1. fold (F_gelu gelu z0) in Hx1.
  assert ((400 <= N)%nat <-> (79 <= (N - 10) / 5 + 1)%nat) as Hiff
    by (clear -Hk0; zify; Z.to_euclidean_division_equations; lia).
  pose proof (conv_out_length_nat N 10 5 Hk0 ltac:(lia)) as HZ.
  clear Hx Hy0 Hs0 Hz0 Hk0.
  generalize dependent ((N - 10) / 5 + 1)%nat. intros L1 Hx Hiff HZ.
  (* conv1 .. conv6, each followed by gelu *)
  stage gelu Hx Hiff HZ 39%nat L2.
  stage gelu Hx Hiff HZ 19%nat L3.
  stage gelu Hx Hiff HZ 9%nat L4.
  stage gelu Hx Hiff HZ 4%nat L5.
  stage gelu Hx Hiff HZ 2%nat L6.
  stage gelu Hx Hiff HZ 1%nat L7.
  assert (output_length (Z.of_nat N) = Z.of_nat L7) as -> by (by rewrite HZ).
  split.
  - intros HN. eexists. split; [reflexivity|]. split; [lia|]. by rewrite Nat2Z.id.
  - intros HN. exfalso. lia.
Qed.

(** One more stage on top of a chain with receptive field [R] and total
    stride [S]. *)
Lemma conv_out_length_compose (N R S k s : Z) :
  0 < S -> 0 < s ->
  conv_out_length ((N - R) / S + 1) k s = (N - (R + (k - 1) * S)) / (S * s) + 1.
Proof.
  intros HS Hs. unfold conv_out_length. f_equal.
  replace ((N - R) / S + 1 - k) with ((N - R) / S + (1 - k)) by lia.
  rewrite <- Z.div_add by lia. rewrite Z.div_div by lia.
  f_equal. lia.
Qed.

Lemma output_length_closed (N : Z) : output_length N = (N - 400) / 320 + 1.
Proof.
  unfold output_length, kernels, strides. cbn [zip zip_with foldl].
  unfold conv_out_length at 7.
  rewrite (conv_out_length_compose N 10 5 3 2) by lia.
  rewrite (conv_out_length_compose N _ _ 3 2) by lia.
  rewrite (conv_out_length_compose N _ _ 3 2) by lia.
  rewrite (conv_out_length_compose N _ _ 3 2) by lia.
  rewrite (conv_out_length_compose N _ _ 2 2) by lia.
  rewrite (conv_out_length_compose N _ _ 2 2) by lia.
  reflexivity.
Qed.

(** X5: lines 98-115.  The seven stages downsample by [5 * 2^6 = 320] with a
    receptive field of 400 samples: an input of [N >= 400] samples per item
    gives exactly [(N - 400) // 320 + 1] frames of 512 channels. *)
Theorem forward_frame_count (gelu rsqrt : Q -> Q)
    (w0 w1 w2 w3 w4 w5 w6 : nat -> nat -> nat -> Q)
    (norm_eps : Q) (norm_weight norm_bias : nat -> Q)
    (x : Tensor3) (B N : nat) :
  has_shape x B 1 N ->
  (0 < B)%nat ->
  (400 <= N)%nat ->
  exists y,
    forward gelu rsqrt
      (__init__ w0 w1 w2 w3 w4 w5 w6 norm_eps norm_weight norm_bias) x = Ok y /\
    has_shape y B 512 ((N - 400) / 320 + 1).
Proof.
  intros Hx HB HN.
  destruct (forward_shape gelu rsqrt w0 w1 w2 w3 w4 w5 w6 norm_eps norm_weight norm_bias
              x B N Hx HB) as [Hlong _].
  destruct (Hlong HN) as (y & Hy & _ & Hshape).
  exists y. split; [done|].
  rewrite output_length_closed in Hshape.
  replace ((N - 400) / 320 + 1)%nat
    with (Z.to_nat ((Z.of_nat N - 400) / 320 + 1)); [done|].
  rewrite Z2Nat.inj_add by (try apply Z.div_pos; lia).
  rewrite Z2Nat.inj_div by lia. f_equal. f_equal. lia.
Qed.

Lemma forward_frame_count_witness :
  exists y,
    forward (fun v => v) (fun v => v)
      (__init__ (fun _ _ _ => 0%Q) (fun _ _ _ => 0%Q) (fun _ _ _ => 0%Q)
                (fun _ _ _ => 0%Q) (fun _ _ _ => 0%Q) (fun _ _ _ => 0%Q)
                (fun _ _ _ => 0%Q) 0%Q (fun _ => 1%Q) (fun _ => 0%Q))
      [[replicate 720 0%Q]] = Ok y /\
    has_shape y 1 512 2.
Proof.
  apply (forward_frame_count (fun v => v) (fun v => v)
           (fun _ _ _ => 0%Q) (fun _ _ _ => 0%Q) (fun _ _ _ => 0%Q)
           (fun _ _ _ => 0%Q) (fun _ _ _ => 0%Q) (fun _ _ _ => 0%Q)
           (fun _ _ _ => 0%Q) 0%Q (fun _ => 1%Q) (fun _ => 0%Q)
           [[replicate 720 0%Q]] 1 720).
  - split; [reflexivity|]. repeat constructor.
  - lia.
  - lia.
Defined.

End FeatureExtractor.

(** * The projection to the encoder width: [FeatureProjection] *)

Module FeatureProjection.

(** Tensors are [[B, T, C]] here: batch items, frames, channels. *)

(** ** [nn.LayerNorm(normalized_shape)] over the last dimension *)

Record LayerNorm : Type := {
  normalized_shape : nat;
  eps : Q;
  gamma : nat -> Q;
  beta : nat -> Q
}.

(** ** [nn.Linear(in_features, out_features)] *)

Record Linear : Type := {
  in_features : nat;
  out_features : nat;
  weight : nat -> nat -> Q;   (* [weight[o][j]] *)
  bias : nat -> Q
}.

Section activations.

(** The reciprocal square root, and what [nn.Dropout(0.1)] does to a tensor
    in training mode. *)
Variable rsqrt : Q -> Q.
Variable dropout_train : FeatureExtractor.Tensor3 -> FeatureExtractor.Tensor3.

(** torch refuses a last dimension that is not [normalized_shape]. *)
Definition layer_norm_frame (ln : LayerNorm) (v : list Q) : result (list Q) :=
  if negb (length v =? normalized_shape ln)%nat then Raise RuntimeError
  else
    let mu := FeatureExtractor.mean v in
    let var := FeatureExtractor.mean (map (fun a => (a - mu) * (a - mu))%Q v) in
    Ok (imap (fun c a => (a - mu) * rsqrt (var + eps ln) * gamma ln c + beta ln c)%Q v).

Definition layer_norm (ln : LayerNorm) (x : FeatureExtractor.Tensor3)
    : result FeatureExtractor.Tensor3 :=
  mapM (mapM (layer_norm_frame ln)) x.

(** torch refuses a last dimension that is not [in_features]. *)
Definition linear_frame (lin : Linear) (v : list Q) : result (list Q) :=
  if negb (length v =? in_features lin)%nat then Raise RuntimeError
  else
    Ok (map (fun o =>
               (FeatureExtractor.Qsum
                  (map (fun j => weight lin o j * nth j v 0)%Q (seq 0 (in_features lin)))
                + bias lin o)%Q)
            (seq 0 (out_features lin))).

Definition linear (lin : Linear) (x : FeatureExtractor.Tensor3)
    : result FeatureExtractor.Tensor3 :=
  mapM (mapM (linear_frame lin)) x.

Record t : Type := {
  norm : LayerNorm;
  projection : Linear
}.

(** [__init__] fixes the widths; [nn.LayerNorm] has [eps = 1e-5]. *)
Definition __init__ (norm_weight norm_bias : nat -> Q)
    (projection_weight : nat -> nat -> Q) (projection_bias : nat -> Q) : t :=
  {| norm := Build_LayerNorm 512 (1 # 100000) norm_weight norm_bias;
     projection := Build_Linear 512 768 projection_weight projection_bias |}.

Definition dropout (training : bool) (x : FeatureExtractor.Tensor3)
    : FeatureExtractor.Tensor3 :=
  if training then dropout_train x else x.

Definition forward (self : t) (training : bool) (x : FeatureExtractor.Tensor3)
    : result FeatureExtractor.Tensor3 :=
  x <-- layer_norm (norm self) x ;;
  x <-- linear (projection self) x ;;
  Ok (dropout training x).

End activations.

(** ** Shapes *)

Lemma frames_has_shape (f : list Q -> result (list Q))
    (x : FeatureExtractor.Tensor3) (B T C C' : nat) :
  FeatureExtractor.has_shape x B T C ->
  (forall v, length v = C -> exists w, f v = Ok w /\ length w = C') ->
  exists y, mapM (mapM f) x = Ok y /\ FeatureExtractor.has_shape y B T C'.
Proof.
  intros Hx Hf. eapply FeatureExtractor.mapM_has_shape; [exact Hx|].
  intros item Hlen Hrows.
  destruct (mapM_Forall_Ok f (fun _ w => length w = C') item) as (y & Hy & Hall).
  { eapply Forall_impl; [exact Hrows|]. cbv beta. intros v Hv. by apply Hf. }
  exists y. split; [done|]. split.
  - rewrite <- Hlen. symmetry. by eapply Forall2_length.
  - clear Hy Hlen Hrows. induction Hall; constructor; auto.
Qed.

Lemma frames_raise (f : list Q -> result (list Q)) (e : exn)
    (x : FeatureExtractor.Tensor3) (B T C : nat) :
  FeatureExtractor.has_shape x B T C ->
  (0 < B)%nat -> (0 < T)%nat ->
  (forall v, length v = C -> f v = Raise e) ->
  mapM (mapM f) x = Raise e.
Proof.
  intros [HB Hitems] HposB HposT Hf. apply mapM_Raise.
  - intros ->. simpl in HB. lia.
  - eapply Forall_impl; [exact Hitems|]. cbv beta. intros item [Hlen Hrows].
    apply mapM_Raise.
    + intros ->. simpl in Hlen. lia.
    + eapply Forall_impl; [exact Hrows|]. cbv beta. intros v Hv. by apply Hf.
Qed.

Lemma projection_accepts (rsqrt : Q -> Q)
    (dropout_train : FeatureExtractor.Tensor3 -> FeatureExtractor.Tensor3)
    (norm_weight norm_bias : nat -> Q)
    (projection_weight : nat -> nat -> Q) (projection_bias : nat -> Q)
    (training : bool) (x : FeatureExtractor.Tensor3) (B T : nat) :
  FeatureExtractor.has_shape x B T 512 ->
  exists y, FeatureExtractor.has_shape y B T 768 /\
    forward rsqrt dropout_train
      (__init__ norm_weight norm_bias projection_weight projection_bias) training x
    = Ok (if training then dropout_train y else y).
Proof.
  intros Hx.
  set (self := __init__ norm_weight norm_bias projection_weight projection_bias).
  destruct (frames_has_shape (layer_norm_frame rsqrt (norm self)) x B T 512 512 Hx)
    as (x1 & Hx1 & Hshape1).
  { intros v Hv. unfold layer_norm_frame. cbn [self __init__ norm normalized_shape].
    rewrite Hv, Nat.eqb_refl. cbn [negb].
    eexists. split; [reflexivity|]. by rewrite length_imap. }
  destruct (frames_has_shape (linear_frame (projection self)) x1 B T 512 768 Hshape1)
    as (x2 & Hx2 & Hshape2).
  { intros v Hv. unfold linear_frame.
    cbn [self __init__ projection in_features out_features].
    rewrite Hv, Nat.eqb_refl. cbn [negb].
    eexists. split; [reflexivity|]. by rewrite length_map, length_seq. }
  exists x2. split; [done|].
  unfold forward, layer_norm, linear. rewrite Hx1. cbn [bind]. rewrite Hx2. done.
Qed.

(** X6: lines 118-129.  The projection takes frames of 512 channels to
    frames of 768 channels and keeps the batch and the frame count; dropout
    is applied to the result in training mode only.  Frames of any other
    width are refused. *)
Theorem projection_forward_shape (rsqrt : Q -> Q)
    (dropout_train : FeatureExtractor.Tensor3 -> FeatureExtractor.Tensor3)
    (norm_weight norm_bias : nat -> Q)
    (projection_weight : nat -> nat -> Q) (projection_bias : nat -> Q)
    (training : bool) (x : FeatureExtractor.Tensor3) (B T C : nat) :
  FeatureExtractor.has_shape x B T C ->
  let self := __init__ norm_weight norm_bias projection_weight projection_bias in
  (C = 512%nat ->
   exists y, FeatureExtractor.has_shape y B T 768 /\
     forward rsqrt dropout_train self training x
     = Ok (if training then dropout_train y else y)) /\
  (C <> 512%nat -> (0 < B)%nat -> (0 < T)%nat ->
   forward rsqrt dropout_train self training x = Raise RuntimeError).
Proof.
  intros Hx self. split.
  - intros ->. by apply projection_accepts.
  - intros HC HB HT. unfold forward, layer_norm.
    rewrite (frames_raise (layer_norm_frame rsqrt (norm self)) RuntimeError x B T C);
      try done.
    intros v Hv. unfold layer_norm_frame. cbn [self __init__ norm normalized_shape].
    rewrite Hv. by destruct (Nat.eqb_spec C 512).
Qed.

Lemma projection_forward_shape_witness :
  (exists y, FeatureExtractor.has_shape y 1 2 768 /\
     forward (fun v => v) (fun x => x)
       (__init__ (fun _ => 1%Q) (fun _ => 0%Q) (fun _ _ => 0%Q) (fun _ => 0%Q))
       true [[replicate 512 1%Q; replicate 512 2%Q]] = Ok y) /\
  forward (fun v => v) (fun x => x)
    (__init__ (fun _ => 1%Q) (fun _ => 0%Q) (fun _ _ => 0%Q) (fun _ => 0%Q))
    false [[[1%Q; 2%Q; 3%Q]]] = Raise RuntimeError.
Proof.
  split.
  - apply (projection_forward_shape (fun v => v) (fun x => x) (fun _ => 1%Q) (fun _ => 0%Q)
             (fun _ _ => 0%Q) (fun _ => 0%Q) true
             [[replicate 512 1%Q; replicate 512 2%Q]] 1 2 512).
    + split; [reflexivity|]. repeat constructor.
    + reflexivity.
  - apply (projection_forward_shape (fun v => v) (fun x => x) (fun _ => 1%Q) (fun _ => 0%Q)
             (fun _ _ => 0%Q) (fun _ => 0%Q) false [[[1%Q; 2%Q; 3%Q]]] 1 1 3).
    + split; [reflexivity|]. repeat constructor.
    + lia.
    + lia.
    + lia.
Defined.

End FeatureProjection.

(** * The positional term: [PositionalConvEmbedding] *)

Module PositionalConvEmbedding.

(** [x.transpose(1, 2)] on one batch item, between [[T, C]] and [[C, T]].
    A list of no rows has lost its other size; the module is only followed
    on items with at least one frame. *)
Definition transpose (item : list (list Q)) : list (list Q) :=
  map (fun c => map (fun row => nth c row 0%Q) item)
      (seq 0 (FeatureExtractor.input_length item)).

Definition transpose_1_2 (x : FeatureExtractor.Tensor3) : FeatureExtractor.Tensor3 :=
  map transpose x.

(** ** [nn.Conv1d(in, out, kernel_size, padding, groups)] under
    [weight_norm(dim=2)] *)

Record Conv1d : Type := {
  in_channels : nat;
  out_channels : nat;
  kernel_size : nat;
  padding : nat;
  groups : nat;
  weight_g : nat -> Q;                 (* one magnitude per kernel position *)
  weight_v : nat -> nat -> nat -> Q;   (* [weight_v[o][c][j]], [c] within the group *)
  bias : nat -> Q
}.

Section activations.

Variables (gelu : Q -> Q) (rsqrt : Q -> Q).

(** [weight = g * v / ||v||], the norm taken over every dimension but the
    kernel position. *)
Definition weight (conv : Conv1d) (o c j : nat) : Q :=
  (weight_g conv j * weight_v conv o c j *
   rsqrt (FeatureExtractor.Qsum
            (map (fun o' =>
                    FeatureExtractor.Qsum
                      (map (fun c' => weight_v conv o' c' j * weight_v conv o' c' j)
                           (seq 0 (in_channels conv / groups conv))))
                 (seq 0 (out_channels conv)))))%Q.

Definition pad_row (p : nat) (row : list Q) : list Q :=
  replicate p 0%Q ++ row ++ replicate p 0%Q.

(** Output channel [o] reads the input channels of its own group only. *)
Definition correlate (conv : Conv1d) (padded : list (list Q)) (o pos : nat) : Q :=
  let in_per_group := (in_channels conv / groups conv)%nat in
  let out_per_group := (out_channels conv / groups conv)%nat in
  let g := (o / out_per_group)%nat in
  (bias conv o +
   FeatureExtractor.Qsum
     (map (fun c =>
             FeatureExtractor.Qsum
               (map (fun j => weight conv o c j *
                              nth (pos + j) (nth (g * in_per_group + c) padded []) 0)
                    (seq 0 (kernel_size conv))))
          (seq 0 in_per_group)))%Q.

Definition conv1d_item (conv : Conv1d) (item : list (list Q)) : result (list (list Q)) :=
  if negb (length item =? in_channels conv)%nat then Raise RuntimeError
  else
    let padded := map (pad_row (padding conv)) item in
    let L := FeatureExtractor.input_length padded in
    if (L <? kernel_size conv)%nat then Raise RuntimeError
    else
      Ok (map (fun o =>
                 map (correlate conv padded o)
                     (FeatureExtractor.window_starts (S L) 0 L (kernel_size conv) 1))
              (seq 0 (out_channels conv))).

Definition conv1d (conv : Conv1d) (x : FeatureExtractor.Tensor3)
    : result FeatureExtractor.Tensor3 :=
  mapM (conv1d_item conv) x.

Record t : Type := {
  conv : Conv1d
}.

Definition __init__ (weight_g : nat -> Q) (weight_v : nat -> nat -> nat -> Q)
    (bias : nat -> Q) : t :=
  {| conv := Build_Conv1d 768 768 128 (128 / 2) 16 weight_g weight_v bias |}.

(** [x[:, :, :-1]] *)
Definition drop_last (x : FeatureExtractor.Tensor3) : FeatureExtractor.Tensor3 :=
  map (map (fun row => take (length row - 1) row)) x.

Definition forward (self : t) (x : FeatureExtractor.Tensor3)
    : result FeatureExtractor.Tensor3 :=
  x <-- conv1d (conv self) (transpose_1_2 x) ;;
  let x := FeatureExtractor.F_gelu gelu (drop_last x) in
  Ok (transpose_1_2 x).

End activations.

(** ** Shapes *)

Lemma transpose_shape (item : list (list Q)) (R C : nat) :
  length item = R -> Forall (fun row => length row = C) item -> (0 < R)%nat ->
  length (transpose item) = C /\ Forall (fun row => length row = R) (transpose item).
Proof.
  intros HR Hrows Hpos. unfold transpose.
  rewrite (FeatureExtractor.input_length_rows item R C) by done.
  split; [by rewrite length_map, length_seq|].
  apply Forall_fmap, Forall_forall. intros c _. cbv [compose]. by rewrite length_map.
Qed.

Lemma transpose_1_2_shape (x : FeatureExtractor.Tensor3) (B R C : nat) :
  FeatureExtractor.has_shape x B R C -> (0 < R)%nat ->
  FeatureExtractor.has_shape (transpose_1_2 x) B C R.
Proof.
  intros [HB Hitems] Hpos. split; [unfold transpose_1_2; by rewrite length_map|].
  unfold transpose_1_2. apply Forall_fmap. eapply Forall_impl; [exact Hitems|].
  cbv [compose]. intros item [HR Hrows]. by apply transpose_shape.
Qed.

Lemma drop_last_shape (x : FeatureExtractor.Tensor3) (B C L : nat) :
  FeatureExtractor.has_shape x B C (S L) ->
  FeatureExtractor.has_shape (drop_last x) B C L.
Proof.
  intros [HB Hitems]. split; [unfold drop_last; by rewrite length_map|].
  unfold drop_last. apply Forall_fmap. eapply Forall_impl; [exact Hitems|].
  cbv [compose]. intros item [HC Hrows]. split; [by rewrite length_map|].
  apply Forall_fmap. eapply Forall_impl; [exact Hrows|].
  cbv [compose]. intros row Hrow. rewrite length_take, Hrow. lia.
Qed.

Lemma conv1d_shape (rsqrt : Q -> Q) (weight_g : nat -> Q)
    (weight_v : nat -> nat -> nat -> Q) (bias : nat -> Q)
    (x : FeatureExtractor.Tensor3) (B T : nat) :
  FeatureExtractor.has_shape x B 768 T ->
  exists y, conv1d rsqrt (conv (__init__ weight_g weight_v bias)) x = Ok y /\
    FeatureExtractor.has_shape y B 768 (S T).
Proof.
  intros Hx. eapply FeatureExtractor.mapM_has_shape; [exact Hx|].
  intros item Hlen Hrows. unfold conv1d_item.
  cbn [__init__ conv in_channels out_channels kernel_size padding].
  change (128 / 2)%nat with 64%nat.
  rewrite Hlen. change (negb (768 =? 768)%nat) with false. cbv iota.
  assert (Hpadded : FeatureExtractor.input_length (map (pad_row 64) item) = (T + 128)%nat).
  { apply (FeatureExtractor.input_length_rows _ 768).
    - lia.
    - by rewrite length_map.
    - apply Forall_fmap. eapply Forall_impl; [exact Hrows|]. cbv [compose].
      intros row Hrow. unfold pad_row. rewrite !length_app, !length_replicate. lia. }
  rewrite Hpadded. destruct (Nat.ltb_spec (T + 128) 128); [lia|].
  eexists. split; [reflexivity|]. split; [by rewrite length_map, length_seq|].
  apply Forall_fmap, Forall_forall. intros o _. cbv [compose].
  rewrite length_map, FeatureExtractor.window_starts_length by lia.
  rewrite Nat.div_1_r. lia.
Qed.

Lemma positional_accepts (gelu rsqrt : Q -> Q) (weight_g : nat -> Q)
    (weight_v : nat -> nat -> nat -> Q) (bias : nat -> Q)
    (x : FeatureExtractor.Tensor3) (B T : nat) :
  FeatureExtractor.has_shape x B T 768 ->
  (0 < T)%nat ->
  exists y, forward gelu rsqrt (__init__ weight_g weight_v bias) x = Ok y /\
    FeatureExtractor.has_shape y B T 768.
Proof.
  intros Hx HT. pose proof (transpose_1_2_shape x B T 768 Hx HT) as Hxt.
  destruct (conv1d_shape rsqrt weight_g weight_v bias _ B T Hxt) as (y & Hy & Hshape).
  unfold forward. rewrite Hy. cbn [bind].
  eexists. split; [reflexivity|].
  apply transpose_1_2_shape; [|lia].
  apply FeatureExtractor.has_shape_map. by apply drop_last_shape.
Qed.

(** X7: lines 132-147.  For a batch of items of [T >= 1] frames of 768
    channels the positional term has the shape of its input ([T + 1]
    positions come out of the padded convolution and the last is dropped),
    which is what the sum [x + positional_embedding(x)] of [encode] needs.
    Frames of any other width are refused. *)
Theorem positional_forward_shape (gelu rsqrt : Q -> Q) (weight_g : nat -> Q)
    (weight_v : nat -> nat -> nat -> Q) (bias : nat -> Q)
    (x : FeatureExtractor.Tensor3) (B T C : nat) :
  FeatureExtractor.has_shape x B T C ->
  (0 < T)%nat ->
  let self := __init__ weight_g weight_v bias in
  (C = 768%nat ->
   exists y, forward gelu rsqrt self x = Ok y /\ FeatureExtractor.has_shape y B T 768) /\
  (C <> 768%nat -> (0 < B)%nat -> forward gelu rsqrt self x = Raise RuntimeError).
Proof.
  intros Hx HT self. split.
  - intros ->. by apply positional_accepts.
  - intros HC HB. pose proof (transpose_1_2_shape x B T C Hx HT) as Hxt.
    unfold forward, conv1d.
    rewrite (mapM_Raise (conv1d_item rsqrt (conv self)) RuntimeError); [done| |].
    + destruct Hxt as [Hlen _]. intros Hnil. rewrite Hnil in Hlen. simpl in Hlen. lia.
    + destruct Hxt as [_ Hitems]. eapply Forall_impl; [exact Hitems|]. cbv beta.
      intros item [Hlen _]. unfold conv1d_item.
      cbn [self __init__ conv in_channels]. rewrite Hlen.
      by destruct (Nat.eqb_spec C 768).
Qed.

Lemma positional_forward_shape_witness :
  (exists y,
     forward (fun v => v) (fun v => v)
       (__init__ (fun _ => 1%Q) (fun _ _ _ => 0%Q) (fun _ => 0%Q))
       [[replicate 768 1%Q; replicate 768 2%Q]] = Ok y /\
     FeatureExtractor.has_shape y 1 2 768) /\
  forward (fun v => v) (fun v => v)
    (__init__ (fun _ => 1%Q) (fun _ _ _ => 0%Q) (fun _ => 0%Q))
    [[[1%Q; 2%Q; 3%Q]]] = Raise RuntimeError.
Proof.
  split.
  - apply (positional_forward_shape (fun v => v) (fun v => v) (fun _ => 1%Q)
             (fun _ _ _ => 0%Q) (fun _ => 0%Q)
             [[replicate 768 1%Q; replicate 768 2%Q]] 1 2 768).
    + split; [reflexivity|]. repeat constructor.
    + lia.
    + reflexivity.
  - apply (positional_forward_shape (fun v => v) (fun v => v) (fun _ => 1%Q)
             (fun _ _ _ => 0%Q) (fun _ => 0%Q) [[[1%Q; 2%Q; 3%Q]]] 1 1 3).
    + split; [reflexivity|]. repeat constructor.
    + lia.
    + lia.
    + lia.
Defined.

End PositionalConvEmbedding.

(** * The front end of [Hubert.encode] *)

Module FrontEnd.

Section front.

Variables (gelu rsqrt : Q -> Q).
Variable dropout_train : FeatureExtractor.Tensor3 -> FeatureExtractor.Tensor3.

(** The sub-modules the way [Hubert.__init__] builds them. *)
Record t : Type := {
  feature_extractor : FeatureExtractor.t;
  feature_projection : FeatureProjection.t;
  positional_embedding : PositionalConvEmbedding.t
}.


End front.




End FrontEnd.

(** * The encoder and the unit extractors: [Hubert], [HubertSoft], [HubertDiscrete] *)

Module Hubert.

(** A feature vector along the channel dimension. *)
Definition Vec : Type := list Q.

(** A tensor of shape [[B, T, C]], read by batch item and frame. *)
Record Hidden : Type := {
  size0 : nat;
  size1 : nat;
  data : nat -> nat -> Vec
}.

Definition Mask : Type := list (list bool).

Definition mask_at (m : Mask) (b t : nat) : bool :=
  match m !! b with
  | Some row => default false (row !! t)
  | None => false
  end.

(** [x[mask] = v]: every masked frame is overwritten by the vector [v]. *)
Definition masked_assign (x : Hidden) (m : Mask) (v : Vec) : Hidden :=
  {| size0 := size0 x;
     size1 := size1 x;
     data := fun b t => if mask_at m b t then v else data x b t |}.

(** [a + b] on tensors of the same shape. *)
Definition add (a b : Hidden) : Hidden :=
  {| size0 := size0 a;
     size1 := size1 a;
     data := fun i t => zip_with Qplus (data a i t) (data b i t) |}.

(** [F.pad(wav, (left, right))]: zeros on both sides of the last dimension. *)
Definition F_pad (wav : FeatureExtractor.Tensor3) (left right : Z)
    : FeatureExtractor.Tensor3 :=
  map (map (fun row =>
              replicate (Z.to_nat left) 0%Q ++ row ++ replicate (Z.to_nat right) 0%Q))
      wav.

(** ** The fitted cluster model: [sklearn.cluster.KMeans.predict]

    [predict] wants a two-dimensional array whose rows have
    [n_features_in_] entries and returns, for each row, the index of the
    closest centre in Euclidean distance (the first one on a tie). *)

Record KMeans : Type := {
  n_features_in_ : nat;
  cluster_centers_ : list Vec
}.

Definition sqdist (a b : Vec) : Q :=
  foldr Qplus 0%Q (zip_with (fun x y => (x - y) * (x - y))%Q a b).

(** The position of the first minimum, given the best position so far. *)
Fixpoint argmin_from (best : nat) (bestv : Q) (i : nat) (l : list Q) : nat :=
  match l with
  | [] => best
  | v :: l' =>
      if Qlt_le_dec v bestv then argmin_from i v (S i) l'
      else argmin_from best bestv (S i) l'
  end.

Definition argmin (l : list Q) : nat :=
  match l with
  | [] => 0
  | v :: l' => argmin_from 0 v 1 l'
  end.

Definition predict (kmeans : KMeans) (X : list Vec) : result (list nat) :=
  if forallb (fun v => (length v =? n_features_in_ kmeans)%nat) X
  then Ok (map (fun v => argmin (map (sqdist v) (cluster_centers_ kmeans))) X)
  else Raise ValueError.

(** [x.squeeze().cpu().numpy()] as [predict] needs it.  Squeezing drops the
    dimensions of size 1: a single utterance gives its frames, a batch of
    one-frame utterances gives one vector each, and every other shape is
    not two-dimensional. *)
Definition squeeze_2d (x : Hidden) : result (list Vec) :=
  if (size0 x =? 1)%nat && negb (size1 x =? 1)%nat
  then Ok (map (data x 0) (seq 0 (size1 x)))
  else if negb (size0 x =? 1)%nat && (size1 x =? 1)%nat
  then Ok (map (fun b => data x b 0%nat) (seq 0 (size0 x)))
  else Raise ValueError.

(** ** [nn.Linear(in_features, out_features)], applied frame by frame *)

Record Linear : Type := {
  in_features : nat;
  out_features : nat;
  weight : nat -> nat -> Q;   (* [weight[o][j]] *)
  bias : nat -> Q
}.

Definition linear_vec (lin : Linear) (v : Vec) : Vec :=
  map (fun o =>
         (FeatureExtractor.Qsum
            (map (fun j => weight lin o j * nth j v 0)%Q (seq 0 (in_features lin)))
          + bias lin o)%Q)
      (seq 0 (out_features lin)).

Definition linear (lin : Linear) (x : Hidden) : Hidden :=
  {| size0 := size0 x;
     size1 := size1 x;
     data := fun b t => linear_vec lin (data x b t) |}.

Section model.

Context {Layer : Type}.

(** The sub-modules of [Hubert.__init__] with their learned values. *)
Variable feature_extractor : FeatureExtractor.Tensor3 -> result FeatureExtractor.Tensor3.
Variable transpose_1_2 : FeatureExtractor.Tensor3 -> FeatureExtractor.Tensor3.
Variable feature_projection : bool -> FeatureExtractor.Tensor3 -> Hidden.
Variable positional_embedding : Hidden -> Hidden.
Variable norm : Hidden -> Hidden.
Variable dropout_train : Hidden -> Hidden.
Variable call : Layer -> Hidden -> option unit -> option unit -> Hidden.
Variables (proj_weight : nat -> nat -> Q) (proj_bias : nat -> Q).

(** [self.proj = nn.Linear(768, 256)] *)
Definition proj : Hidden -> Hidden :=
  linear (Build_Linear 768 256 proj_weight proj_bias).

Record t : Type := {
  training : bool;
  _mask : bool;
  masked_spec_embed : Vec;
  encoder : TransformerEncoder.t Layer
}.

(** [Hubert.__init__]: a fresh [nn.Module] is in training mode; the encoder
    has 12 layers.  The label embeddings, which only [logits] reads, are not
    part of the model. *)
Definition __init__ (mask : bool) (masked_spec_embed : Vec) (encoder_layer : Layer) : t :=
  {| training := true;
     _mask := mask;
     masked_spec_embed := masked_spec_embed;
     encoder := TransformerEncoder.__init__ encoder_layer 12 |}.

(** [nn.Module.eval] *)
Definition eval (self : t) : t :=
  {| training := false;
     _mask := _mask self;
     masked_spec_embed := masked_spec_embed self;
     encoder := encoder self |}.

(** [nn.Dropout]: active in training mode only. *)
Definition dropout (training : bool) (x : Hidden) : Hidden :=
  if training then dropout_train x else x.

(** [Hubert.mask]; [u] and [gen] are the random draws of [_compute_mask].
    The cast [.to(x.dtype)] of the mask embedding is the identity on [Q]. *)
Definition mask (self : t) (x : Hidden) (u : Q) (gen : nat -> nat -> nat)
    : result (Hidden * option Mask) :=
  if training self && _mask self then
    mask <-- SpanMasker._compute_mask (size0 x, Z.of_nat (size1 x)) (8 # 10) 10 2 u gen ;;
    Ok (masked_assign x mask (masked_spec_embed self), Some mask)
  else Ok (x, None).

Definition encode (self : t) (x : FeatureExtractor.Tensor3) (layer : option Z)
    (u : Q) (gen : nat -> nat -> nat) : result (Hidden * option Mask) :=
  x <-- feature_extractor x ;;
  let x := feature_projection (training self) (transpose_1_2 x) in
  xm <-- mask self x u gen ;;
  let '(x, mask) := xm in
  let x := add x (positional_embedding x) in
  let x := dropout (training self) (norm x) in
  let x := TransformerEncoder.forward call (encoder self) x None None layer in
  Ok (x, mask).

(** [HubertSoft.units] *)
Definition HubertSoft_units (self : t) (wav : FeatureExtractor.Tensor3)
    (u : Q) (gen : nat -> nat -> nat) : result Hidden :=
  let wav := F_pad wav ((400 - 320) / 2) ((400 - 320) / 2) in
  xm <-- encode self wav None u gen ;;
  Ok (proj (fst xm)).

(** [HubertDiscrete.units] *)
Definition HubertDiscrete_units (self : t) (kmeans : KMeans) (wav : FeatureExtractor.Tensor3)
    (u : Q) (gen : nat -> nat -> nat) : result (list nat) :=
  let wav := F_pad wav ((400 - 320) / 2) ((400 - 320) / 2) in
  xm <-- encode self wav (Some 7) u gen ;;
  X <-- squeeze_2d (fst xm) ;;
  predict kmeans X.

(** ** The mask step *)



Lemma mask_short (self : t) (x : Hidden) (u : Q) (gen : nat -> nat -> nat) :
  training self && _mask self = true -> (size1 x < 10)%nat ->
  mask self x u gen = Raise ValueError.
Proof.
  intros H HT. unfold mask. rewrite H.
  rewrite SpanMasker.compute_mask_invalid by lia. done.
Qed.


(** ** Nearest-centre assignment *)

Lemma argmin_from_spec (l : list Q) : forall (pre : list Q) (best : nat) (bestv : Q),
  pre !! best = Some bestv ->
  (forall j vj, pre !! j = Some vj -> (bestv <= vj)%Q) ->
  exists vr,
    (pre ++ l) !! argmin_from best bestv (length pre) l = Some vr /\
    forall j vj, (pre ++ l) !! j = Some vj -> (vr <= vj)%Q.
Proof.
  induction l as [|v l IH]; intros pre best bestv Hbest Hmin; simpl.
  - rewrite app_nil_r. eauto.
  - replace (pre ++ v :: l) with ((pre ++ [v]) ++ l) by (by rewrite <- app_assoc).
    replace (S (length pre)) with (length (pre ++ [v]))
      by (rewrite length_app; simpl; lia).
    destruct (Qlt_le_dec v bestv) as [Hlt|Hle].
    + apply IH.
      * rewrite lookup_app_r by lia. by rewrite Nat.sub_diag.
      * intros j vj Hj. apply lookup_app_Some in Hj as [Hj|[Hge Hj]].
        -- apply Qle_trans with bestv; [by apply Qlt_le_weak|by eapply Hmin].
        -- apply list_lookup_singleton_Some in Hj as [_ <-]. apply Qle_refl.
    + apply IH.
      * by apply lookup_app_l_Some.
      * intros j vj Hj. apply lookup_app_Some in Hj as [Hj|[Hge Hj]].
        -- by eapply Hmin.
        -- by apply list_lookup_singleton_Some in Hj as [_ <-].
Qed.

Lemma argmin_spec (l : list Q) :
  l <> [] ->
  exists vr, l !! argmin l = Some vr /\ forall j vj, l !! j = Some vj -> (vr <= vj)%Q.
Proof.
  destruct l as [|v l]; [done|]. intros _. unfold argmin.
  apply (argmin_from_spec l [v] 0 v); [done|].
  intros j vj Hj. apply list_lookup_singleton_Some in Hj as [_ <-]. apply Qle_refl.
Qed.


(** ** The unit extractors *)




End model.

Example predict_example :
  predict {| n_features_in_ := 2; cluster_centers_ := [[0; 0]%Q; [4; 4]%Q; [10; 0]%Q] |}
          [[1; 1]%Q; [3; 5]%Q; [9; 1]%Q; [2; 2]%Q]
  = Ok [0; 1; 2; 0]%nat.
Proof. reflexivity. Qed.

(** A small instance on which the statements above can be run: stages that
    pass their input on, 12 frames of one channel per utterance. *)
Definition toy_projection (_ : bool) (w : FeatureExtractor.Tensor3) : Hidden :=
  {| size0 := length w;
     size1 := 12;
     data := fun b t => [inject_Z (Z.of_nat (b + t))] |}.

Definition toy_model (training mask_flag : bool) : t (Layer := unit) :=
  let model := __init__ mask_flag [7%Q] tt in
  if training then model else eval model.

Definition toy_kmeans : KMeans :=
  {| n_features_in_ := 1; cluster_centers_ := [[0%Q]; [5%Q]; [10%Q]] |}.



(** ** More about masking and the unit extractors *)

(** X9: lines 38-43 with lines 193-198.  In training mode with the mask flag
    set, [Hubert.mask] on 10 to 19 frames masks exactly one run of 10
    consecutive frames in every batch row; on 20 frames or more every row has
    at least 11 masked frames. *)
Theorem mask_frames {Layer : Type} (self : t (Layer := Layer)) (x : Hidden) (u : Q)
    (gen : nat -> nat -> nat) :
  training self && _mask self = true ->
  (10 <= size1 x)%nat ->
  exists m : Mask,
    mask self x u gen = Ok (masked_assign x m (masked_spec_embed self), Some m) /\
    length m = size0 x /\
    ((size1 x < 20)%nat ->
     forall row, row ∈ m ->
       exists s, (s + 10 <= size1 x)%nat /\
         row = replicate s false ++ replicate 10 true
               ++ replicate (size1 x - s - 10) false) /\
    ((20 <= size1 x)%nat ->
     forall row, row ∈ m ->
       (11 <= SpanMasker.count_true row <= size1 x)%nat).
Proof.
  intros Hon HT. unfold mask. rewrite Hon.
  destruct (SpanMasker.num_masked_spans_hubert (Z.of_nat (size1 x)) u ltac:(lia))
    as [Hshort Hlong].
  destruct (SpanMasker.compute_mask_ok (size0 x) (Z.of_nat (size1 x)) (8 # 10) 10 2 u gen)
    as (m & Hm & Hrows); [lia|apply SpanMasker.num_masked_spans_pos; lia|].
  exists m. rewrite Hm. split; [done|]. split.
  { apply Forall2_length in Hrows. by rewrite length_map, length_seq in Hrows. }
  split.
  - intros Hlt row Hin. rewrite Hshort in Hrows by lia.
    apply list_elem_of_lookup_1 in Hin as [r Hr].
    destruct (Forall2_lookup_r _ _ _ _ _ Hrows Hr) as (st & _ & Hst).
    destruct (SpanMasker.single_span_row _ _ _ _ Hst) as (s & Hs & Hrow).
    exists s. rewrite Nat2Z.id in Hs, Hrow. done.
  - intros Hge row Hin. specialize (Hlong ltac:(lia)).
    apply list_elem_of_lookup_1 in Hin as [r Hr].
    destruct (Forall2_lookup_r _ _ _ _ _ Hrows Hr) as (st & _ & Hst).
    pose proof (SpanMasker.span_row_count_true_ge Hst ltac:(lia) ltac:(lia)) as Hlow.
    pose proof (SpanMasker.count_true_le row) as Hup.
    rewrite (SpanMasker.row_length _ _ _ _ _ Hst) in Hup. lia.
Qed.

Section model_edges.
Context {Layer : Type}.
Variable feature_extractor : FeatureExtractor.Tensor3 -> result FeatureExtractor.Tensor3.
Variable transpose_1_2 : FeatureExtractor.Tensor3 -> FeatureExtractor.Tensor3.
Variable feature_projection : bool -> FeatureExtractor.Tensor3 -> Hidden.
Variable positional_embedding : Hidden -> Hidden.
Variable norm : Hidden -> Hidden.
Variable dropout_train : Hidden -> Hidden.
Variable call : Layer -> Hidden -> option unit -> option unit -> Hidden.
Variables (proj_weight : nat -> nat -> Q) (proj_bias : nat -> Q).

(** X10: lines 45-54 and 75-92.  [torch.inference_mode] does not leave
    training mode: on a module in training mode with the mask flag set, a
    waveform that gives fewer than 10 frames makes [encode] and both [units]
    raise [ValueError]. *)
Theorem units_training_short (self : t (Layer := Layer)) (kmeans : KMeans)
    (wav feats : FeatureExtractor.Tensor3) (u : Q) (gen : nat -> nat -> nat) :
  training self && _mask self = true ->
  feature_extractor (F_pad wav ((400 - 320) / 2) ((400 - 320) / 2)) = Ok feats ->
  (size1 (feature_projection (training self) (transpose_1_2 feats)) < 10)%nat ->
  HubertSoft_units feature_extractor transpose_1_2 feature_projection
    positional_embedding norm dropout_train call proj_weight proj_bias self wav u gen
    = Raise ValueError /\
  HubertDiscrete_units feature_extractor transpose_1_2 feature_projection
    positional_embedding norm dropout_train call self kmeans wav u gen
    = Raise ValueError.
Proof.
  intros Hon Hfe HT.
  unfold HubertSoft_units, HubertDiscrete_units, encode. rewrite Hfe. cbn [bind].
  by rewrite (mask_short positional_embedding norm dropout_train call self _ u gen Hon HT).
Qed.

(** X11: lines 87-92.  Every id [HubertDiscrete.units] returns is the index
    of one of the centres of the fitted cluster model. *)
Theorem discrete_units_in_range (self : t (Layer := Layer)) (kmeans : KMeans)
    (wav : FeatureExtractor.Tensor3) (u : Q) (gen : nat -> nat -> nat)
    (ids : list nat) :
  cluster_centers_ kmeans <> [] ->
  HubertDiscrete_units feature_extractor transpose_1_2 feature_projection
    positional_embedding norm dropout_train call self kmeans wav u gen = Ok ids ->
  Forall (fun id => (id < length (cluster_centers_ kmeans))%nat) ids.
Proof.
  intros Hne. unfold HubertDiscrete_units.
  destruct (encode _ _ _ _ _ _ _ _ _ _ _ _) as [xm|]; [|done]. cbn [bind].
  destruct (squeeze_2d (fst xm)) as [X|]; [|done]. cbn [bind].
  unfold predict.
  destruct (forallb (fun v => (length v =? n_features_in_ kmeans)%nat) X); [|done].
  intros [= <-].
  apply Forall_fmap, Forall_forall. intros v _. cbv beta.
  destruct (argmin_spec proj_weight proj_bias (map (sqdist v) (cluster_centers_ kmeans)))
    as (vr & Hvr & _).
  { by destruct (cluster_centers_ kmeans). }
  apply lookup_lt_Some in Hvr. by rewrite length_map in Hvr.
Qed.

End model_edges.

Lemma mask_frames_witness :
  exists m : Mask,
    mask (toy_model true true) (toy_projection true [[[1%Q]]]) (1 # 2) (fun _ _ => 0%nat)
    = Ok (masked_assign (toy_projection true [[[1%Q]]]) m [7%Q], Some m) /\
    length m = 1%nat.
Proof.
  destruct (mask_frames (toy_model true true) (toy_projection true [[[1%Q]]]) (1 # 2)
              (fun _ _ => 0%nat)) as (m & Hm & Hlen & _).
  - reflexivity.
  - simpl. lia.
  - exists m. split; [exact Hm|exact Hlen].
Defined.

(** The same toy stages with 4 frames per utterance. *)
Definition toy_projection_short (_ : bool) (w : FeatureExtractor.Tensor3) : Hidden :=
  {| size0 := length w;
     size1 := 4;
     data := fun b t => [inject_Z (Z.of_nat (b + t))] |}.

Lemma units_training_short_witness :
  HubertSoft_units Ok (fun w => w) toy_projection_short (fun x => x) (fun x => x)
    (fun x => x) (fun _ x _ _ => x) (fun _ _ => 0%Q) (fun _ => 0%Q)
    (toy_model true true) [[[1%Q]]] (1 # 2) (fun _ _ => 0%nat) = Raise ValueError /\
  HubertDiscrete_units Ok (fun w => w) toy_projection_short (fun x => x) (fun x => x)
    (fun x => x) (fun _ x _ _ => x)
    (toy_model true true) toy_kmeans [[[1%Q]]] (1 # 2) (fun _ _ => 0%nat)
  = Raise ValueError.
Proof.
  apply (units_training_short Ok (fun w => w) toy_projection_short (fun x => x)
           (fun x => x) (fun x => x) (fun (_ : unit) x _ _ => x)
           (fun _ _ => 0%Q) (fun _ => 0%Q) (toy_model true true) toy_kmeans [[[1%Q]]]
           [[replicate 40 0%Q ++ [1%Q] ++ replicate 40 0%Q]] (1 # 2) (fun _ _ => 0%nat)).
  - reflexivity.
  - reflexivity.
  - simpl. lia.
Defined.

Lemma discrete_units_in_range_witness :
  Forall (fun id => (id < 3)%nat) [0; 0; 1; 1; 2; 2; 2; 2; 2; 2; 2; 2]%nat.
Proof.
  apply (discrete_units_in_range Ok (fun w => w) toy_projection (fun x => x)
           (fun x => x) (fun x => x) (fun (_ : unit) x _ _ => x)
           (fun _ _ => 0%Q) (fun _ => 0%Q) (toy_model false true) toy_kmeans
           [[[1%Q]]] (1 # 2) (fun _ _ => 0%nat) [0; 0; 1; 1; 2; 2; 2; 2; 2; 2; 2; 2]%nat).
  - discriminate.
  - vm_compute. reflexivity.
Defined.

(** ** The frame rate of the unit extractors *)

Lemma F_pad_shape (wav : FeatureExtractor.Tensor3) (B C N : nat) (left right : Z) :
  FeatureExtractor.has_shape wav B C N ->
  FeatureExtractor.has_shape (F_pad wav left right) B C
    (Z.to_nat left + N + Z.to_nat right).
Proof.
  intros [HB Hitems]. split; [unfold F_pad; by rewrite length_map|].
  unfold F_pad. apply Forall_fmap. eapply Forall_impl; [exact Hitems|]. cbv beta.
  intros item [HC Hrows]. simpl. split; [by rewrite length_map|].
  apply Forall_fmap. eapply Forall_impl; [exact Hrows|]. cbv beta.
  intros row Hrow. simpl. rewrite !length_app, !length_replicate. lia.
Qed.

(** X12: lines 77 and 89 with lines 98-115.  The 40 samples of padding on
    each side make up for the 400-sample receptive field: on the padded
    waveform of [N >= 320] samples the feature extractor returns exactly
    [N // 320] frames, one per 320 samples. *)
Theorem units_frame_count (gelu rsqrt : Q -> Q)
    (w0 w1 w2 w3 w4 w5 w6 : nat -> nat -> nat -> Q)
    (norm_eps : Q) (norm_weight norm_bias : nat -> Q)
    (wav : FeatureExtractor.Tensor3) (B N : nat) :
  FeatureExtractor.has_shape wav B 1 N ->
  (0 < B)%nat ->
  (320 <= N)%nat ->
  exists y,
    FeatureExtractor.forward gelu rsqrt
      (FeatureExtractor.__init__ w0 w1 w2 w3 w4 w5 w6 norm_eps norm_weight norm_bias)
      (F_pad wav ((400 - 320) / 2) ((400 - 320) / 2)) = Ok y /\
    FeatureExtractor.has_shape y B 512 (N / 320).
Proof.
  intros Hwav HB HN.
  pose proof (F_pad_shape wav B 1 N ((400 - 320) / 2) ((400 - 320) / 2) Hwav) as Hpad.
  change (Z.to_nat ((400 - 320) / 2)) with 40%nat in Hpad.
  destruct (FeatureExtractor.forward_shape gelu rsqrt w0 w1 w2 w3 w4 w5 w6 norm_eps
              norm_weight norm_bias _ B _ Hpad HB) as [Hlong _].
  destruct (Hlong ltac:(lia)) as (y & Hy & _ & Hshape).
  exists y. split; [done|].
  rewrite FeatureExtractor.output_length_closed in Hshape.
  replace (N / 320)%nat
    with (Z.to_nat ((Z.of_nat (40 + N + 40) - 400) / 320 + 1)); [done|].
  replace (Z.of_nat (40 + N + 40) - 400) with (Z.of_nat N - 320) by lia.
  replace (Z.of_nat N - 320) with (Z.of_nat N + (-1) * 320) by lia.
  rewrite Z.div_add by lia.
  replace (Z.of_nat N / 320 + -1 + 1) with (Z.of_nat N / 320) by lia.
  rewrite Z2Nat.inj_div by lia. by rewrite Nat2Z.id.
Qed.

Lemma units_frame_count_witness :
  exists y,
    FeatureExtractor.forward (fun v => v) (fun v => v)
      (FeatureExtractor.__init__ (fun _ _ _ => 0%Q) (fun _ _ _ => 0%Q) (fun _ _ _ => 0%Q)
         (fun _ _ _ => 0%Q) (fun _ _ _ => 0%Q) (fun _ _ _ => 0%Q)
         (fun _ _ _ => 0%Q) 0%Q (fun _ => 1%Q) (fun _ => 0%Q))
      (F_pad [[replicate 640 0%Q]] ((400 - 320) / 2) ((400 - 320) / 2)) = Ok y /\
    FeatureExtractor.has_shape y 1 512 2.
Proof.
  apply (units_frame_count (fun v => v) (fun v => v)
           (fun _ _ _ => 0%Q) (fun _ _ _ => 0%Q) (fun _ _ _ => 0%Q)
           (fun _ _ _ => 0%Q) (fun _ _ _ => 0%Q) (fun _ _ _ => 0%Q)
           (fun _ _ _ => 0%Q) 0%Q (fun _ => 1%Q) (fun _ => 0%Q)
           [[replicate 640 0%Q]] 1 640).
  - split; [reflexivity|]. repeat constructor.
  - lia.
  - lia.
Defined.

(** ** The training pass: [Hubert.logits] and [Hubert.forward] *)

Section forward_pass.
Context {Layer : Type}.

Variable feature_extractor : FeatureExtractor.Tensor3 -> result FeatureExtractor.Tensor3.
Variable transpose_1_2 : FeatureExtractor.Tensor3 -> FeatureExtractor.Tensor3.
Variable feature_projection : bool -> FeatureExtractor.Tensor3 -> Hidden.
Variable positional_embedding : Hidden -> Hidden.
Variable norm : Hidden -> Hidden.
Variable dropout_train : Hidden -> Hidden.
Variable call : Layer -> Hidden -> option unit -> option unit -> Hidden.
Variables (proj_weight : nat -> nat -> Q) (proj_bias : nat -> Q).

(** [torch.cosine_similarity] of two vectors, and the rows of
    [self.label_embedding.weight]. *)
Variable cosine_similarity : Vec -> Vec -> Q.
Variable label_embedding : list Vec.

(** Broadcasting [x.unsqueeze(2)] against the embedding table compares
    every frame with every label embedding. *)
Definition logits (x : Hidden) : Hidden :=
  {| size0 := size0 x;
     size1 := size1 x;
     data := fun b t =>
       map (fun e => (cosine_similarity (data x b t) e / (1 # 10))%Q) label_embedding |}.

Definition forward (self : t (Layer := Layer)) (x : FeatureExtractor.Tensor3)
    (u : Q) (gen : nat -> nat -> nat) : result (Hidden * option Mask) :=
  xm <-- encode feature_extractor transpose_1_2 feature_projection positional_embedding
           norm dropout_train call self x None u gen ;;
  let '(x, mask) := xm in
  let x := proj proj_weight proj_bias x in
  Ok (logits x, mask).

End forward_pass.

(** ** From samples to units *)

Section units_frames.
Context {Layer : Type}.

(** The feature extractor with its learned values. *)
Variables (gelu rsqrt : Q -> Q) (w0 w1 w2 w3 w4 w5 w6 : nat -> nat -> nat -> Q).
Variables (norm_eps : Q) (norm_weight norm_bias : nat -> Q).

Let feature_extractor : FeatureExtractor.Tensor3 -> result FeatureExtractor.Tensor3 :=
  FeatureExtractor.forward gelu rsqrt
    (FeatureExtractor.__init__ w0 w1 w2 w3 w4 w5 w6 norm_eps norm_weight norm_bias).

Variable transpose_1_2 : FeatureExtractor.Tensor3 -> FeatureExtractor.Tensor3.
Variable feature_projection : bool -> FeatureExtractor.Tensor3 -> Hidden.
Variable positional_embedding : Hidden -> Hidden.
Variable norm : Hidden -> Hidden.
Variable dropout_train : Hidden -> Hidden.
Variable call : Layer -> Hidden -> option unit -> option unit -> Hidden.
Variables (proj_weight : nat -> nat -> Q) (proj_bias : nat -> Q).

(** What the other stages do to the batch and time sizes: the projection
    turns [[B, 512, T]], transposed, into [B] items of [T] frames; layer
    normalisation and the encoder layers keep both sizes. *)
Hypothesis feature_projection_sizes : forall training feats B T,
  (0 < B)%nat ->
  FeatureExtractor.has_shape feats B 512 T ->
  size0 (feature_projection training (transpose_1_2 feats)) = B /\
  size1 (feature_projection training (transpose_1_2 feats)) = T.
Hypothesis norm_sizes : forall x,
  size0 (norm x) = size0 x /\ size1 (norm x) = size1 x.
Hypothesis call_sizes : forall layer x,
  size0 (call layer x None None) = size0 x /\ size1 (call layer x None None) = size1 x.

Lemma foldl_call_sizes (layers : list Layer) : forall x : Hidden,
  size0 (foldl (fun output layer => call layer output None None) x layers) = size0 x /\
  size1 (foldl (fun output layer => call layer output None None) x layers) = size1 x.
Proof using call_sizes.
  induction layers as [|layer layers IH]; intros x; simpl; [done|].
  destruct (IH (call layer x None None)) as [-> ->]. apply call_sizes.
Qed.

(** X13: lines 45-54 and 75-79 with lines 98-115.  In inference mode
    [HubertSoft.units] on a batch of [B] waveforms of [N >= 320] samples
    returns, for each waveform, exactly [N // 320] frames of 256 values:
    one unit per 320 samples. *)
Theorem soft_units_frame_count (self : t (Layer := Layer))
    (wav : FeatureExtractor.Tensor3) (B N : nat) (u : Q) (gen : nat -> nat -> nat) :
  training self = false ->
  FeatureExtractor.has_shape wav B 1 N ->
  (0 < B)%nat ->
  (320 <= N)%nat ->
  exists units : Hidden,
    HubertSoft_units feature_extractor transpose_1_2 feature_projection
      positional_embedding norm dropout_train call proj_weight proj_bias self wav u gen
    = Ok units /\
    size0 units = B /\ size1 units = (N / 320)%nat /\
    forall b t, length (data units b t) = 256%nat.
Proof using feature_projection_sizes norm_sizes call_sizes.
  intros Heval Hwav HB HN.
  pose proof (F_pad_shape wav B 1 N ((400 - 320) / 2) ((400 - 320) / 2) Hwav) as Hpad.
  change (Z.to_nat ((400 - 320) / 2)) with 40%nat in Hpad.
  destruct (FeatureExtractor.forward_shape gelu rsqrt w0 w1 w2 w3 w4 w5 w6 norm_eps
              norm_weight norm_bias _ B _ Hpad HB) as [Hlong _].
  destruct (Hlong ltac:(lia)) as (feats & Hfeats & _ & Hshape).
  rewrite FeatureExtractor.output_length_closed in Hshape.
  replace (Z.to_nat ((Z.of_nat (40 + N + 40) - 400) / 320 + 1)) with (N / 320)%nat
    in Hshape; cycle 1.
  { replace (Z.of_nat (40 + N + 40) - 400) with (Z.of_nat N + (-1) * 320) by lia.
    rewrite Z.div_add by lia.
    replace (Z.of_nat N / 320 + -1 + 1) with (Z.of_nat N / 320) by lia.
    rewrite Z2Nat.inj_div by lia. by rewrite Nat2Z.id. }
  destruct (feature_projection_sizes (training self) feats B _ HB Hshape) as [Hs0 Hs1].
  unfold HubertSoft_units, encode, feature_extractor. rewrite Hfeats. cbn [bind].
  unfold mask. rewrite Heval. cbn [andb bind fst dropout].
  eexists. split; [reflexivity|].
  unfold proj, linear. cbn [size0 size1 data].
  unfold TransformerEncoder.forward, TransformerEncoder.slice_to.
  destruct (foldl_call_sizes (TransformerEncoder.layers (encoder self))
              (norm (add (feature_projection false (transpose_1_2 feats))
                         (positional_embedding
                            (feature_projection false (transpose_1_2 feats))))))
    as [-> ->].
  destruct (norm_sizes (add (feature_projection false (transpose_1_2 feats))
                            (positional_embedding
                               (feature_projection false (transpose_1_2 feats)))))
    as [-> ->].
  cbn [add size0 size1]. rewrite Heval in Hs0, Hs1.
  split; [done|]. split; [done|].
  intros b t. unfold linear_vec. by rewrite length_map, length_seq.
Qed.

Variable cosine_similarity : Vec -> Vec -> Q.
Variable label_embedding : list Vec.
Hypothesis dropout_sizes : forall x,
  size0 (dropout_train x) = size0 x /\ size1 (dropout_train x) = size1 x.



End units_frames.

Lemma soft_units_frame_count_witness :
  exists units : Hidden,
    HubertSoft_units
      (FeatureExtractor.forward (fun v => v) (fun v => v)
         (FeatureExtractor.__init__ (fun _ _ _ => 0%Q) (fun _ _ _ => 0%Q)
            (fun _ _ _ => 0%Q) (fun _ _ _ => 0%Q) (fun _ _ _ => 0%Q)
            (fun _ _ _ => 0%Q) (fun _ _ _ => 0%Q) 0%Q (fun _ => 1%Q) (fun _ => 0%Q)))
      (fun w => w)
      (fun _ feats =>
         {| size0 := length feats;
            size1 := FeatureExtractor.input_length (hd [] feats);
            data := fun b t => [] |})
      (fun x => x) (fun x => x) (fun x => x) (fun (_ : unit) x _ _ => x)
      (fun _ _ => 0%Q) (fun _ => 0%Q)
      (toy_model false true) [[replicate 640 0%Q]] (1 # 2) (fun _ _ => 0%nat)
    = Ok units /\
    size0 units = 1%nat /\ size1 units = 2%nat.
Proof.
  destruct (soft_units_frame_count (fun v => v) (fun v => v)
              (fun _ _ _ => 0%Q) (fun _ _ _ => 0%Q) (fun _ _ _ => 0%Q)
              (fun _ _ _ => 0%Q) (fun _ _ _ => 0%Q) (fun _ _ _ => 0%Q)
              (fun _ _ _ => 0%Q) 0%Q (fun _ => 1%Q) (fun _ => 0%Q)
              (fun w => w)
              (fun _ feats =>
                 {| size0 := length feats;
                    size1 := FeatureExtractor.input_length (hd [] feats);
                    data := fun b t => [] |})
              (fun x => x) (fun x => x) (fun x => x) (fun (_ : unit) x _ _ => x)
              (fun _ _ => 0%Q) (fun _ => 0%Q))
    with (self := toy_model false true) (wav := [[replicate 640 0%Q]])
         (B := 1%nat) (N := 640%nat) (u := 1 # 2) (gen := fun (_ _ : nat) => 0%nat)
    as (units & Hunits & Hs0 & Hs1 & _).
  - intros training feats B T Hpos [HB Hitems]. simpl. split; [done|].
    destruct Hitems as [|item feats [HC Hrows] _]; simpl in *; [lia|].
    destruct Hrows as [|row item Hrow _]; simpl in *; [lia|done].
  - intros x. split; reflexivity.
  - intros layer x. split; reflexivity.
  - reflexivity.
  - split; [reflexivity|]. repeat constructor.
  - lia.
  - lia.
  - exists units. split; [exact Hunits|]. split; [exact Hs0|exact Hs1].
Defined.




End Hubert.

(** * The training callbacks *)

(** ** [RecentCheckpointsCallback] *)

Module RecentCheckpointsCallback.

(** [os.path.join(a, b)] on a POSIX system. *)
Fixpoint ends_with_slash (a : string) : bool :=
  match a with
  | EmptyString => false
  | String c EmptyString => bool_decide (c = "/"%char)
  | String _ a' => ends_with_slash a'
  end.

Definition os_path_join (a b : string) : string :=
  match b with
  | String "/"%char _ => b
  | _ =>
      if bool_decide (a = "") || ends_with_slash a then a +:+ b
      else a +:+ "/" +:+ b
  end.

Record t : Type := {
  save_path : string;
  save_top_k : Z;
  filename_prefix : string;          (* ["checkpoint-step={step}"] up to the hole *)
  saved_checkpoints : list string;
  save_every_steps : Z
}.

Definition __init__ (save_path : string) (save_top_k save_every_steps : Z) : t :=
  {| save_path := save_path;
     save_top_k := save_top_k;
     filename_prefix := "checkpoint-step=";
     saved_checkpoints := [];
     save_every_steps := save_every_steps |}.

(** [self.filename.format(step=global_step) + ".ckpt"] under [save_path]. *)
Definition checkpoint_path (self : t) (global_step : Z) : string :=
  os_path_join (save_path self) (filename_prefix self +:+ pretty global_step +:+ ".ckpt").

Definition with_saved (self : t) (saved : list string) : t :=
  {| save_path := save_path self;
     save_top_k := save_top_k self;
     filename_prefix := filename_prefix self;
     saved_checkpoints := saved;
     save_every_steps := save_every_steps self |}.

(** The files on disk are a set of paths: [trainer.save_checkpoint] adds
    one, [os.remove] takes one away. *)
Definition on_train_batch_end (self : t) (global_step : Z) (disk : gset string)
    : result (t * gset string) :=
  if save_every_steps self =? 0 then Raise ZeroDivisionError
  else if global_step `mod` save_every_steps self =? 0 then
    let checkpoint_path := checkpoint_path self global_step in
    let disk := {[checkpoint_path]} ∪ disk in
    let saved := saved_checkpoints self ++ [checkpoint_path] in
    if Z.of_nat (length saved) >? save_top_k self then
      match saved with
      | oldest_checkpoint :: saved =>
          if bool_decide (oldest_checkpoint ∈ disk)
          then Ok (with_saved self saved, disk ∖ {[oldest_checkpoint]})
          else Ok (with_saved self saved, disk)
      | [] => Raise IndexError
      end
    else Ok (with_saved self saved, disk)
  else Ok (self, disk).

(** The states the callback goes through: the one [__init__] builds, every
    state a call of [on_train_batch_end] returns, and, between two calls,
    any change of the files on disk. *)
Inductive reachable (path : string) (k every : Z) : t * gset string -> Prop :=
| reachable_init disk :
    reachable path k every (__init__ path k every, disk)
| reachable_step st global_step st' :
    reachable path k every st ->
    on_train_batch_end (fst st) global_step (snd st) = Ok st' ->
    reachable path k every st'
| reachable_disk st disk :
    reachable path k every st ->
    reachable path k every (fst st, disk).


Example checkpoint_path_example :
  checkpoint_path (__init__ "ckpt" 5 5000) 10000 = "ckpt/checkpoint-step=10000.ckpt".
Proof. reflexivity. Qed.

(** One call, from any state. *)
Lemma on_train_batch_end_cases (self : t) (global_step : Z) (disk : gset string) :
  let new := checkpoint_path self global_step in
  let saved1 := saved_checkpoints self ++ [new] in
  let disk1 := {[new]} ∪ disk in
  match on_train_batch_end self global_step disk with
  | Raise e => save_every_steps self = 0 /\ e = ZeroDivisionError
  | Ok (self', disk') =>
      save_every_steps self <> 0 /\
      save_top_k self' = save_top_k self /\
      save_every_steps self' = save_every_steps self /\
      (global_step `mod` save_every_steps self <> 0 -> self' = self /\ disk' = disk) /\
      (global_step `mod` save_every_steps self = 0 ->
       Z.of_nat (length saved1) <= save_top_k self ->
       saved_checkpoints self' = saved1 /\ disk' = disk1) /\
      (global_step `mod` save_every_steps self = 0 ->
       save_top_k self < Z.of_nat (length saved1) ->
       exists oldest, saved1 = oldest :: saved_checkpoints self' /\
                      disk' = disk1 ∖ {[oldest]})
  end.
Proof.
  intros new saved1 disk1. unfold on_train_batch_end. fold new. fold saved1. fold disk1.
  destruct (Z.eqb_spec (save_every_steps self) 0) as [H0|H0]; [done|].
  destruct (Z.eqb_spec (global_step `mod` save_every_steps self) 0) as [Hm|Hm]; cycle 1.
  { repeat split; try done; intros; lia. }
  destruct (Z.gtb_spec (Z.of_nat (length saved1)) (save_top_k self)) as [Hgt|Hle]; cycle 1.
  { repeat split; try done; intros; lia. }
  destruct saved1 as [|oldest rest] eqn:Hsaved.
  { subst saved1. by destruct (saved_checkpoints self). }
  case_bool_decide as Hin.
  - repeat split; try done; try (intros; lia). intros _ _. by exists oldest.
  - repeat split; try done; try (intros; lia). intros _ _. exists oldest.
    split; [done|]. symmetry. by apply difference_disjoint_L, disjoint_singleton_r.
Qed.

Lemma reachable_invariant (path : string) (k every : Z) (st : t * gset string) :
  0 <= k ->
  reachable path k every st ->
  save_top_k (fst st) = k /\ save_every_steps (fst st) = every /\
  Z.of_nat (length (saved_checkpoints (fst st))) <= k.
Proof.
  intros Hk Hst. induction Hst as [disk|st global_step [self' disk'] Hst IH Hstep
                                   |st disk Hst IH]; simpl.
  - split; [done|]. split; [done|]. simpl. lia.
  - destruct IH as (IHk & IHe & IHlen).
    pose proof (on_train_batch_end_cases (fst st) global_step (snd st)) as Hc.
    rewrite Hstep in Hc. cbv zeta in Hc.
    destruct Hc as (Hne & Hk' & He' & Hskip & Hkeep & Hprune).
    split; [congruence|]. split; [congruence|].
    destruct (decide (global_step `mod` save_every_steps (fst st) = 0)) as [Hm|Hm].
    + destruct (Z_le_gt_dec
        (Z.of_nat (length (saved_checkpoints (fst st) ++
                           [checkpoint_path (fst st) global_step])))
        (save_top_k (fst st))) as [Hle|Hgt].
      * destruct (Hkeep Hm Hle) as [-> _]. lia.
      * destruct (Hprune Hm ltac:(lia)) as (oldest & Heq & _).
        apply (f_equal length) in Heq. rewrite length_app in Heq. simpl in Heq. lia.
    + destruct (Hskip Hm) as [-> _]. done.
  - done.
Qed.

(** C10: in every state the callback reaches, and so after every call of
    [on_train_batch_end], the list of saved checkpoints has at most
    [save_top_k] entries ([save_top_k >= 0]).  A call on a step that is not a
    multiple of [save_every_steps] changes nothing.  A saving call appends
    the new path; if the list then exceeds [save_top_k], exactly one entry,
    its first and so oldest one, is dropped and that file is gone from the
    disk afterwards, every other file being kept. *)
Theorem saved_checkpoints_top_k (path : string) (k every : Z)
    (st : t * gset string) (global_step : Z) :
  0 <= k ->
  reachable path k every st ->
  let self := fst st in
  let disk := snd st in
  let new := checkpoint_path self global_step in
  let saved1 := saved_checkpoints self ++ [new] in
  let disk1 := {[new]} ∪ disk in
  Z.of_nat (length (saved_checkpoints self)) <= k /\
  match on_train_batch_end self global_step disk with
  | Raise e => every = 0 /\ e = ZeroDivisionError
  | Ok (self', disk') =>
      reachable path k every (self', disk') /\
      Z.of_nat (length (saved_checkpoints self')) <= k /\
      (global_step `mod` every <> 0 -> self' = self /\ disk' = disk) /\
      (global_step `mod` every = 0 -> Z.of_nat (length saved1) <= k ->
       saved_checkpoints self' = saved1 /\ disk' = disk1) /\
      (global_step `mod` every = 0 -> k < Z.of_nat (length saved1) ->
       exists oldest, saved1 = oldest :: saved_checkpoints self' /\
                      disk' = disk1 ∖ {[oldest]})
  end.
Proof.
  intros Hk Hst self disk new saved1 disk1.
  destruct (reachable_invariant path k every st Hk Hst) as (Hsk & Hse & Hlen).
  split; [done|].
  pose proof (on_train_batch_end_cases self global_step disk) as Hc. cbv zeta in Hc.
  destruct (on_train_batch_end self global_step disk) as [[self' disk']|e] eqn:Hstep.
  - destruct Hc as (Hne & Hk' & He' & Hskip & Hkeep & Hprune).
    fold self in Hsk, Hse. rewrite Hse in Hskip, Hkeep, Hprune. rewrite Hsk in Hkeep, Hprune.
    assert (reachable path k every (self', disk')) as Hst'
      by (by eapply reachable_step).
    split; [done|]. split; [|done].
    by destruct (reachable_invariant path k every _ Hk Hst') as (_ & _ & ?).
  - destruct Hc as [H0 ->]. fold self in Hse. split; [congruence|done].
Qed.

Lemma saved_checkpoints_top_k_witness :
  exists st',
    on_train_batch_end (__init__ "ckpt" 0 10) 10 ∅ = Ok st' /\
    Z.of_nat (length (saved_checkpoints (fst st'))) <= 0.
Proof.
  pose proof (saved_checkpoints_top_k "ckpt" 0 10 (__init__ "ckpt" 0 10, ∅) 10
                ltac:(lia) (reachable_init _ _ _ _)) as [_ H].
  cbn [fst snd] in H.
  destruct (on_train_batch_end (__init__ "ckpt" 0 10) 10 ∅) as [[self' disk']|e].
  - exists (self', disk'). split; [reflexivity|]. apply H.
  - destruct H as [H _]. discriminate H.
Defined.

(** Three saving calls with [save_top_k = 2]: the first checkpoint is the
    one that goes. *)
Example on_train_batch_end_example :
  (st1 <-- on_train_batch_end (__init__ "ckpt" 2 10) 10 ∅ ;;
   st2 <-- on_train_batch_end (fst st1) 15 (snd st1) ;;
   st3 <-- on_train_batch_end (fst st2) 20 (snd st2) ;;
   st4 <-- on_train_batch_end (fst st3) 30 (snd st3) ;;
   Ok (saved_checkpoints (fst st4), elements (snd st4)))
  = Ok (["ckpt/checkpoint-step=20.ckpt"; "ckpt/checkpoint-step=30.ckpt"],
        elements ({["ckpt/checkpoint-step=20.ckpt"; "ckpt/checkpoint-step=30.ckpt"]}
                    : gset string)).
Proof. vm_compute. reflexivity. Qed.

(** ** A whole run of the callback *)

(** The calls of one training run, in order, with no one else touching the
    files; an exception ends the run. *)
Fixpoint run (self : t) (disk : gset string) (steps : list Z) : result (t * gset string) :=
  match steps with
  | [] => Ok (self, disk)
  | global_step :: steps' =>
      st <-- on_train_batch_end self global_step disk ;;
      run (fst st) (snd st) steps'
  end.

(** The paths a run saves, in order. *)
Definition saved_paths (self : t) (steps : list Z) : list string :=
  map (checkpoint_path self)
      (filter (fun global_step => global_step `mod` save_every_steps self = 0) steps).

Lemma checkpoint_path_with_saved (self : t) (saved : list string) (global_step : Z) :
  checkpoint_path (with_saved self saved) global_step = checkpoint_path self global_step.
Proof. reflexivity. Qed.

Lemma saved_paths_with_saved (self : t) (saved : list string) (steps : list Z) :
  saved_paths (with_saved self saved) steps = saved_paths self steps.
Proof. reflexivity. Qed.

Lemma with_saved_id (self : t) : with_saved self (saved_checkpoints self) = self.
Proof. by destruct self. Qed.

(** One call, as a function of the state before it. *)
Lemma on_train_batch_end_step (self : t) (global_step : Z) (disk : gset string) :
  save_every_steps self <> 0 ->
  let new := checkpoint_path self global_step in
  let saved1 := saved_checkpoints self ++ [new] in
  on_train_batch_end self global_step disk =
  if decide (global_step `mod` save_every_steps self = 0) then
    if decide (Z.of_nat (length saved1) <= save_top_k self)
    then Ok (with_saved self saved1, {[new]} ∪ disk)
    else Ok (with_saved self (drop 1 saved1),
             ({[new]} ∪ disk) ∖ {[default new (head saved1)]})
  else Ok (self, disk).
Proof.
  intros Hne new saved1. unfold on_train_batch_end. fold new. fold saved1.
  destruct (Z.eqb_spec (save_every_steps self) 0) as [|_]; [done|].
  destruct (Z.eqb_spec (global_step `mod` save_every_steps self) 0) as [Hm|Hm];
    case_decide; try done.
  destruct (Z.gtb_spec (Z.of_nat (length saved1)) (save_top_k self)) as [Hgt|Hle];
    case_decide; try lia; [|done].
  destruct saved1 as [|oldest rest] eqn:Hsaved.
  { subst saved1. by destruct (saved_checkpoints self). }
  simpl. case_bool_decide as Hin; [done|].
  f_equal. f_equal. symmetry. by apply difference_disjoint_L, disjoint_singleton_r.
Qed.

Lemma drop_last_app {A : Type} (k : nat) (l hist : list A) (p : A) :
  length l = k ->
  drop (length (drop 1 (l ++ [p]) ++ hist) - k) (drop 1 (l ++ [p]) ++ hist)
  = drop (length (l ++ p :: hist) - k) (l ++ p :: hist).
Proof.
  intros Hl. rewrite !length_app, length_drop, length_app. simpl.
  replace (l ++ p :: hist) with ((l ++ [p]) ++ hist) by (by rewrite <- app_assoc).
  replace (length l + S (length hist) - k)%nat with (1 + length hist)%nat by lia.
  replace (length l + 1 - 1 + length hist - k)%nat with (length hist) by lia.
  rewrite <- drop_drop. f_equal.
  symmetry. apply drop_app_le. rewrite length_app. simpl. lia.
Qed.

Lemma run_saved (steps : list Z) : forall (self : t) (disk : gset string),
  save_every_steps self <> 0 ->
  Z.of_nat (length (saved_checkpoints self)) <= save_top_k self ->
  exists self' disk',
    run self disk steps = Ok (self', disk') /\
    save_top_k self' = save_top_k self /\
    saved_checkpoints self' =
    let all := saved_checkpoints self ++ saved_paths self steps in
    drop (length all - Z.to_nat (save_top_k self)) all.
Proof.
  induction steps as [|global_step steps IH]; intros self disk Hne Hlen.
  - exists self, disk. split; [done|]. split; [done|]. cbv zeta.
    unfold saved_paths. simpl. rewrite app_nil_r.
    by replace (length (saved_checkpoints self) - Z.to_nat (save_top_k self))%nat
      with 0%nat by lia.
  - cbn [run]. rewrite on_train_batch_end_step by done. cbv zeta.
    unfold saved_paths. rewrite filter_cons.
    destruct (decide (global_step `mod` save_every_steps self = 0)) as [Hm|Hm].
    + set (new := checkpoint_path self global_step).
      case_decide as Hfit; cbn [bind fst snd].
      * destruct (IH (with_saved self (saved_checkpoints self ++ [new]))
                     ({[new]} ∪ disk)) as (self' & disk' & Hrun & Hk & Hsaved);
          [done|done|].
        exists self', disk'. split; [done|]. split; [done|].
        rewrite Hsaved. cbn [saved_checkpoints with_saved save_top_k].
        rewrite saved_paths_with_saved. unfold saved_paths. cbn [map].
        by rewrite <- !app_assoc.
      * rewrite length_app in Hfit. simpl in Hfit.
        destruct (IH (with_saved self (drop 1 (saved_checkpoints self ++ [new])))
                     (({[new]} ∪ disk)
                        ∖ {[default new (head (saved_checkpoints self ++ [new]))]}))
          as (self' & disk' & Hrun & Hk & Hsaved); [done| |].
        { cbn [saved_checkpoints with_saved save_top_k].
          rewrite length_drop, length_app. simpl. lia. }
        exists self', disk'. split; [done|]. split; [done|].
        rewrite Hsaved. cbn [saved_checkpoints with_saved save_top_k].
        rewrite saved_paths_with_saved. unfold saved_paths. cbn [map].
        apply drop_last_app. lia.
    + cbn [bind fst snd]. apply IH; done.
Qed.

(** X15: lines 43-55.  After any run of calls on a callback built with
    [save_top_k >= 0] and [save_every_steps <> 0], the list holds exactly the
    last [save_top_k] paths saved so far (all of them while there are fewer),
    oldest first. *)
Theorem run_keeps_most_recent (path : string) (k every : Z) (disk : gset string)
    (steps : list Z) :
  0 <= k ->
  every <> 0 ->
  let saved_so_far := saved_paths (__init__ path k every) steps in
  exists self' disk',
    run (__init__ path k every) disk steps = Ok (self', disk') /\
    saved_checkpoints self' = drop (length saved_so_far - Z.to_nat k) saved_so_far.
Proof.
  intros Hk Hne saved_so_far.
  destruct (run_saved steps (__init__ path k every) disk) as (self' & disk' & Hrun & _ & Hs).
  - done.
  - simpl. lia.
  - exists self', disk'. split; [done|]. by rewrite Hs.
Qed.

Lemma run_keeps_most_recent_witness :
  exists self' disk',
    run (__init__ "ckpt" 2 10) ∅ [10; 15; 20; 30] = Ok (self', disk') /\
    saved_checkpoints self' =
    ["ckpt/checkpoint-step=20.ckpt"; "ckpt/checkpoint-step=30.ckpt"].
Proof.
  destruct (run_keeps_most_recent "ckpt" 2 10 ∅ [10; 15; 20; 30])
    as (self' & disk' & Hrun & Hsaved).
  - lia.
  - lia.
  - exists self', disk'. split; [exact Hrun|exact Hsaved].
Defined.

(** ** The files a run leaves on disk *)

Lemma string_length_app (a b : string) :
  String.length (a +:+ b) = (String.length a + String.length b)%nat.
Proof.
  induction a as [|c a IH]; [done|].
  change (String c a +:+ b) with (String c (a +:+ b)). simpl. by rewrite IH.
Qed.

Lemma string_app_inj_r (x y z : string) : x +:+ z = y +:+ z -> x = y.
Proof.
  revert y. induction x as [|c x IH]; intros [|d y] H; simpl in H.
  - done.
  - apply (f_equal String.length) in H. rewrite !string_length_app in H.
    simpl in H. lia.
  - apply (f_equal String.length) in H. rewrite !string_length_app in H.
    simpl in H. lia.
  - change (String c (x +:+ z) = String d (y +:+ z)) in H.
    injection H as -> H. f_equal. by apply IH.
Qed.

(** Different steps give different checkpoint files. *)
Lemma checkpoint_path_inj (path : string) (k every : Z) (step1 step2 : Z) :
  checkpoint_path (__init__ path k every) step1
  = checkpoint_path (__init__ path k every) step2 ->
  step1 = step2.
Proof.
  unfold checkpoint_path, os_path_join. cbn [save_path filename_prefix __init__].
  change ("checkpoint-step=" +:+ pretty step1 +:+ ".ckpt")
    with (String "c" ("heckpoint-step=" +:+ pretty step1 +:+ ".ckpt")).
  change ("checkpoint-step=" +:+ pretty step2 +:+ ".ckpt")
    with (String "c" ("heckpoint-step=" +:+ pretty step2 +:+ ".ckpt")).
  cbv iota beta.
  intros H.
  assert (String "c" ("heckpoint-step=" +:+ pretty step1 +:+ ".ckpt")
          = String "c" ("heckpoint-step=" +:+ pretty step2 +:+ ".ckpt")) as Hb.
  { destruct (bool_decide (path = "") || ends_with_slash path).
    - by apply String.app_inj in H.
    - apply String.app_inj in H. by apply (String.app_inj "/") in H. }
  injection Hb as Hb. apply String.app_inj in Hb.
  apply string_app_inj_r in Hb. by apply pretty_Z_inj in Hb.
Qed.

Lemma run_disk (steps : list Z) : forall (self : t) (disk : gset string),
  save_every_steps self <> 0 ->
  Z.of_nat (length (saved_checkpoints self)) <= save_top_k self ->
  NoDup (saved_checkpoints self ++ saved_paths self steps) ->
  (forall q, q ∈ saved_checkpoints self -> q ∈ disk) ->
  exists self' disk',
    run self disk steps = Ok (self', disk') /\
    forall q, q ∈ disk' <->
              (q ∈ saved_checkpoints self' \/
               (q ∈ disk /\ (q ∉ saved_checkpoints self) /\ (q ∉ saved_paths self steps))).
Proof.
  induction steps as [|global_step steps IH]; intros self disk Hne Hlen Hnd Hdisk.
  - exists self, disk. split; [done|]. intros q. unfold saved_paths. simpl.
    split; [|intros [H|[H _]]; [by apply Hdisk|done]].
    intros Hq. destruct (decide (q ∈ saved_checkpoints self)); [by left|].
    right. split; [done|]. split; [done|]. apply not_elem_of_nil.
  - cbn [run]. rewrite on_train_batch_end_step by done. cbv zeta.
    unfold saved_paths in Hnd |- *. rewrite filter_cons in Hnd |- *.
    destruct (decide (global_step `mod` save_every_steps self = 0)) as [Hm|Hm];
      [|cbn [bind fst snd]; by apply IH].
    set (new := checkpoint_path self global_step) in *. cbn [map] in Hnd |- *.
    fold (saved_paths self steps) in Hnd |- *.
    case_decide as Hfit; cbn [bind fst snd].
    + destruct (IH (with_saved self (saved_checkpoints self ++ [new])) ({[new]} ∪ disk))
        as (self' & disk' & Hrun & Hq); [done|done| | |].
      { cbn [saved_checkpoints with_saved]. rewrite saved_paths_with_saved.
        by rewrite <- app_assoc. }
      { cbn [saved_checkpoints with_saved]. intros q [Hq|Hq]%elem_of_app.
        - apply elem_of_union_r. by apply Hdisk.
        - apply list_elem_of_singleton in Hq as ->. apply elem_of_union_l.
          by apply elem_of_singleton. }
      exists self', disk'. split; [done|]. intros q. rewrite Hq.
      cbn [saved_checkpoints with_saved]. rewrite saved_paths_with_saved.
      rewrite elem_of_union, elem_of_singleton, elem_of_app, list_elem_of_singleton.
      rewrite elem_of_cons. tauto.
    + rewrite length_app in Hfit. simpl in Hfit.
      destruct (saved_checkpoints self ++ [new]) as [|oldest rest] eqn:Hsaved.
      { by destruct (saved_checkpoints self). }
      cbn [drop head default].
      assert (NoDup (oldest :: rest ++ saved_paths self steps)) as Hnd'.
      { change (NoDup ((oldest :: rest) ++ saved_paths self steps)).
        rewrite <- Hsaved. by rewrite <- app_assoc. }
      apply NoDup_cons in Hnd' as [Hold Hnd'].
      assert (forall q, q ∈ oldest :: rest <-> q ∈ saved_checkpoints self \/ q = new)
        as Hmem.
      { intros q. rewrite <- Hsaved, elem_of_app, list_elem_of_singleton. done. }
      destruct (IH (with_saved self rest) (({[new]} ∪ disk) ∖ {[oldest]}))
        as (self' & disk' & Hrun & Hq); [done| | | |].
      { cbn [saved_checkpoints with_saved save_top_k].
        apply (f_equal length) in Hsaved. rewrite length_app in Hsaved.
        simpl in Hsaved. lia. }
      { cbn [saved_checkpoints with_saved]. by rewrite saved_paths_with_saved. }
      { cbn [saved_checkpoints with_saved]. intros q Hq.
        apply elem_of_difference. split.
        - destruct (proj1 (Hmem q) ltac:(by right)) as [Hl| ->].
          + apply elem_of_union_r. by apply Hdisk.
          + apply elem_of_union_l. by apply elem_of_singleton.
        - rewrite elem_of_singleton. intros ->. apply Hold.
          apply elem_of_app. by left. }
      exists self', disk'. split; [done|]. intros q. rewrite Hq.
      cbn [saved_checkpoints with_saved]. rewrite saved_paths_with_saved.
      rewrite elem_of_difference, elem_of_union, !elem_of_singleton, elem_of_cons.
      specialize (Hmem q). rewrite elem_of_cons in Hmem. tauto.
Qed.

(** X16: lines 43-55.  When the steps at which the run saves are pairwise
    distinct and nobody else touches the files, then after the run exactly
    the checkpoints still in the list are on disk: every earlier checkpoint
    has been deleted, and a file the callback did not write is neither
    created nor deleted. *)
Theorem run_disk_holds_most_recent (path : string) (k every : Z) (disk : gset string)
    (steps : list Z) :
  0 <= k ->
  every <> 0 ->
  NoDup (filter (fun global_step => global_step `mod` every = 0) steps) ->
  let saved_so_far := saved_paths (__init__ path k every) steps in
  exists self' disk',
    run (__init__ path k every) disk steps = Ok (self', disk') /\
    saved_checkpoints self' = drop (length saved_so_far - Z.to_nat k) saved_so_far /\
    forall q, q ∈ disk' <->
              (q ∈ saved_checkpoints self' \/ (q ∈ disk /\ (q ∉ saved_so_far))).
Proof.
  intros Hk Hne Hnd saved_so_far.
  destruct (run_saved steps (__init__ path k every) disk) as (self' & disk' & Hrun & _ & Hs);
    [done|simpl; lia|].
  destruct (run_disk steps (__init__ path k every) disk) as (self2 & disk2 & Hrun2 & Hq).
  - done.
  - simpl. lia.
  - cbn [saved_checkpoints __init__ app]. unfold saved_paths. cbn [save_every_steps __init__].
    apply NoDup_fmap_2_strong; [|done].
    intros s1 s2 _ _. apply checkpoint_path_inj.
  - intros q Hin. by apply elem_of_nil in Hin.
  - rewrite Hrun in Hrun2. injection Hrun2 as <- <-.
    exists self', disk'. split; [done|]. split; [by rewrite Hs|].
    intros q. rewrite Hq. cbn [saved_checkpoints __init__].
    split; (intros [H|H]; [by left|right]).
    + destruct H as (? & _ & ?). done.
    + destruct H as [? ?]. split; [done|]. split; [apply not_elem_of_nil|done].
Qed.

Lemma run_disk_holds_most_recent_witness :
  exists self' disk',
    run (__init__ "ckpt" 1 10) {["notes.txt"]} [10; 15; 20] = Ok (self', disk') /\
    saved_checkpoints self' = ["ckpt/checkpoint-step=20.ckpt"] /\
    "notes.txt" ∈ disk'.
Proof.
  destruct (run_disk_holds_most_recent "ckpt" 1 10 {["notes.txt"]} [10; 15; 20])
    as (self' & disk' & Hrun & Hsaved & Hdisk).
  - lia.
  - lia.
  - refine (bool_decide_unpack _ _). vm_compute. exact I.
  - exists self', disk'. split; [exact Hrun|]. split; [exact Hsaved|].
    apply Hdisk. right. split; [by apply elem_of_singleton|].
    refine (bool_decide_unpack _ _). vm_compute. exact I.
Defined.

Lemma run_no_room (steps : list Z) : forall (self : t) (disk : gset string),
  save_every_steps self <> 0 ->
  save_top_k self <= 0 ->
  saved_checkpoints self = [] ->
  exists self' disk',
    run self disk steps = Ok (self', disk') /\
    saved_checkpoints self' = [] /\
    disk' = disk ∖ list_to_set (saved_paths self steps).
Proof.
  induction steps as [|global_step steps IH]; intros self disk Hne Hk Hempty.
  - exists self, disk. split; [done|]. split; [done|].
    unfold saved_paths. simpl. by rewrite difference_empty_L.
  - cbn [run]. rewrite on_train_batch_end_step by done. cbv zeta.
    unfold saved_paths. rewrite filter_cons. rewrite Hempty. cbn [app length].
    destruct (decide (global_step `mod` save_every_steps self = 0)) as [Hm|Hm];
      [|cbn [bind fst snd]; by apply IH].
    case_decide; [lia|]. cbn [bind fst snd drop head default map list_to_set].
    destruct (IH (with_saved self [])
                 (({[checkpoint_path self global_step]} ∪ disk)
                    ∖ {[checkpoint_path self global_step]}))
      as (self' & disk' & Hrun & Hsaved & Hdisk); [done|done|done|].
    exists self', disk'. split; [done|]. split; [done|].
    rewrite Hdisk, saved_paths_with_saved. unfold saved_paths.
    apply set_eq. intros q.
    rewrite !elem_of_difference, !elem_of_union, !elem_of_singleton. tauto.
Qed.

(** X17: lines 52-55.  With [save_top_k <= 0] nothing is kept: after any run
    the list is empty and every path the run saved to is absent from the
    disk, a file that was already there under such a path included. *)
Theorem run_keeps_nothing (path : string) (k every : Z) (disk : gset string)
    (steps : list Z) :
  k <= 0 ->
  every <> 0 ->
  exists self' disk',
    run (__init__ path k every) disk steps = Ok (self', disk') /\
    saved_checkpoints self' = [] /\
    disk' = disk ∖ list_to_set (saved_paths (__init__ path k every) steps).
Proof. intros Hk Hne. by apply run_no_room. Qed.

Lemma run_keeps_nothing_witness :
  exists self' disk',
    run (__init__ "ckpt" (-1) 10) {["ckpt/checkpoint-step=10.ckpt"]} [10; 20]
      = Ok (self', disk') /\
    saved_checkpoints self' = [] /\
    disk' = {["ckpt/checkpoint-step=10.ckpt"]}
            ∖ list_to_set (saved_paths (__init__ "ckpt" (-1) 10) [10; 20]).
Proof.
  apply (run_keeps_nothing "ckpt" (-1) 10 {["ckpt/checkpoint-step=10.ckpt"]} [10; 20]).
  - lia.
  - lia.
Defined.

(** X18: lines 50-55.  A path can be in the list more than once (the same
    [global_step] seen by two calls, as under gradient accumulation).  When
    the oldest entry is pruned while the same path is still listed further
    on, the file is removed all the same: the call leaves a listed
    checkpoint that is not on disk. *)
Theorem prune_removes_listed_duplicate (self : t) (global_step : Z) (disk : gset string)
    (oldest : string) (rest : list string) :
  save_every_steps self <> 0 ->
  global_step `mod` save_every_steps self = 0 ->
  saved_checkpoints self ++ [checkpoint_path self global_step] = oldest :: rest ->
  save_top_k self < Z.of_nat (length (oldest :: rest)) ->
  oldest ∈ rest ->
  exists self' disk',
    on_train_batch_end self global_step disk = Ok (self', disk') /\
    saved_checkpoints self' = rest /\
    oldest ∈ saved_checkpoints self' /\
    oldest ∉ disk'.
Proof.
  intros Hne Hm Hsaved Hk Hdup.
  rewrite on_train_batch_end_step by done. cbv zeta. rewrite Hsaved.
  case_decide; [|done]. case_decide; [lia|].
  eexists _, _. split; [reflexivity|]. cbn [drop head default saved_checkpoints with_saved].
  split; [done|]. split; [done|].
  rewrite elem_of_difference, elem_of_singleton. tauto.
Qed.

Lemma prune_removes_listed_duplicate_witness :
  exists self' disk',
    (st1 <-- on_train_batch_end (__init__ "ckpt" 1 10) 10 ∅ ;;
     on_train_batch_end (fst st1) 10 (snd st1)) = Ok (self', disk') /\
    saved_checkpoints self' = ["ckpt/checkpoint-step=10.ckpt"] /\
    "ckpt/checkpoint-step=10.ckpt" ∉ disk'.
Proof.
  destruct (prune_removes_listed_duplicate
              (with_saved (__init__ "ckpt" 1 10) ["ckpt/checkpoint-step=10.ckpt"])
              10 {["ckpt/checkpoint-step=10.ckpt"]}
              "ckpt/checkpoint-step=10.ckpt" ["ckpt/checkpoint-step=10.ckpt"])
    as (self' & disk' & Hstep & Hsaved & _ & Hgone).
  - discriminate.
  - reflexivity.
  - reflexivity.
  - simpl. lia.
  - by left.
  - exists self', disk'. split; [|split; [exact Hsaved|exact Hgone]].
    rewrite <- Hstep. vm_compute. f_equal.
Defined.

End RecentCheckpointsCallback.

(** ** [VlabelerEvaluateCallback]: the metric phase of [on_validation_start] *)

Module VlabelerEvaluateCallback.

(** A Python [dict] with string keys, in insertion order. *)
Definition dict (A : Type) : Type := list (string * A).

Fixpoint dict_get {A : Type} (d : dict A) (key : string) : result A :=
  match d with
  | [] => Raise KeyError
  | (k, v) :: d' => if bool_decide (k = key) then Ok v else dict_get d' key
  end.

Fixpoint dict_set {A : Type} (d : dict A) (key : string) (v : A) : dict A :=
  match d with
  | [] => [(key, v)]
  | (k, w) :: d' =>
      if bool_decide (k = key) then (k, v) :: d' else (k, w) :: dict_set d' key v
  end.


Section callback.

(** The collaborators: TextGrid tiers and their reader, the phoneme filter
    of [evaluate], the metric classes of [networks.utils.metrics], and the
    file system as [pathlib] sees it. *)
Context {Tier Metric : Type}.
Variable textgrid_from_file : string -> result (list Tier).
Variable remove_ignored_phonemes : string -> Tier -> Tier.
Variable update : Metric -> Tier -> Tier -> Metric.
Variable compute : Metric -> Q.
Variable BoundaryEditRatio : Metric.
Variable BoundaryEditRatioWeighted : Metric.
Variable VlabelerEditRatio : Q -> Q -> Metric.
Variable rglob : string -> string -> list string.
Variable path_name : string -> string.






(** ** The loop keeps the six registered metrics *)





(** ** More about the metric phase *)






End callback.









End VlabelerEvaluateCallback.

(** ** [StepProgressBar] *)

Module StepProgressBar.

Import VlabelerEvaluateCallback.

(** Reading a key of a dictionary after writing one. *)
Lemma dict_get_set_eq {A : Type} (d : dict A) (key : string) (v : A) :
  dict_get (dict_set d key v) key = Ok v.
Proof.
  induction d as [|[k w] d IH]; simpl.
  - by rewrite bool_decide_eq_true_2.
  - case_bool_decide as Hk; simpl.
    + by rewrite bool_decide_eq_true_2.
    + by rewrite bool_decide_eq_false_2.
Qed.

Lemma dict_get_set_ne {A : Type} (d : dict A) (key key' : string) (v : A) :
  key <> key' -> dict_get (dict_set d key v) key' = dict_get d key'.
Proof.
  intros Hne. induction d as [|[k w] d IH]; simpl.
  - by rewrite bool_decide_eq_false_2.
  - case_bool_decide as Hk; simpl.
    + subst k. by rewrite !bool_decide_eq_false_2.
    + case_bool_decide; [done|]. apply IH.
Qed.

Section bar.

(** The values shown in the bar, the conversion of an integer to one, and
    what [TQDMProgressBar.get_metrics] returns for a trainer and a module. *)
Context {Value Trainer PlModule : Type}.
Variable of_int : Z -> Value.
Variable super_get_metrics : Trainer -> PlModule -> dict Value.
Variable global_step : Trainer -> Z.

Record t : Type := { _global_step : Z }.

Definition __init__ : t := {| _global_step := 0 |}.

(** The base class call only drives the display. *)
Definition on_train_batch_start (self : t) (trainer : Trainer) : t :=
  {| _global_step := global_step trainer |}.

Definition get_metrics (self : t) (trainer : Trainer) (pl_module : PlModule)
    : dict Value :=
  let items := super_get_metrics trainer pl_module in
  dict_set items "step" (of_int (_global_step self)).

(** X22: lines 20-32.  [get_metrics] reports under ["step"] the global step
    read at the most recent batch start (0 before the first one), whatever
    the base class put there and whatever the trainer's step is by then, and
    hands on every other entry of the base class unchanged. *)
Theorem get_metrics_step (batches : list Trainer) (trainer : Trainer)
    (pl_module : PlModule) :
  let self := foldl on_train_batch_start __init__ batches in
  let items := get_metrics self trainer pl_module in
  dict_get items "step" = Ok (of_int (default 0 (global_step <$> last batches))) /\
  forall key, key <> "step" ->
    dict_get items key = dict_get (super_get_metrics trainer pl_module) key.
Proof.
  intros self items. split.
  - unfold items, get_metrics. rewrite dict_get_set_eq. do 2 f_equal.
    unfold self. induction batches as [|b batches IH] using rev_ind; [done|].
    by rewrite foldl_app, last_snoc.
  - intros key Hne. unfold items, get_metrics. by apply dict_get_set_ne.
Qed.

End bar.

End StepProgressBar.

(** * The checkpoint loaders of [model.py] *)

Module Loaders.
Import VlabelerEvaluateCallback.

Definition URLS : dict string :=
  [("hubert-discrete",
    "https://github.com/bshall/hubert/releases/download/v0.1/hubert-discrete-e9416457.pt");
   ("hubert-soft",
    "https://github.com/bshall/hubert/releases/download/v0.1/hubert-soft-0d54a1f4.pt");
   ("kmeans100",
    "https://github.com/bshall/hubert/releases/download/v0.1/kmeans100-50f36a95.pt")].

(** What the k-means checkpoint file holds. *)
Record Checkpoint : Type := {
  ckpt_n_features_in_ : nat;
  ckpt_n_threads : Z;
  ckpt_cluster_centers_ : list Hubert.Vec
}.

(** An [sklearn.cluster.KMeans] object: the constructor argument and the
    attributes that [_kmeans] writes into its [__dict__]. *)
Record KMeansObject : Type := {
  n_clusters : Z;
  _n_threads : option Z;
  fitted : option Hubert.KMeans
}.

Section hub.

(** [torch.hub.load_state_dict_from_url(url, progress=progress)] *)
Variable load_state_dict_from_url : string -> bool -> result Checkpoint.

Definition _kmeans (num_clusters : Z) (pretrained progress : bool) : result KMeansObject :=
  let kmeans := {| n_clusters := num_clusters; _n_threads := None; fitted := None |} in
  if pretrained then
    url <-- dict_get URLS ("kmeans" +:+ pretty num_clusters) ;;
    checkpoint <-- load_state_dict_from_url url progress ;;
    Ok {| n_clusters := n_clusters kmeans;
          _n_threads := Some (ckpt_n_threads checkpoint);
          fitted := Some {| Hubert.n_features_in_ := ckpt_n_features_in_ checkpoint;
                            Hubert.cluster_centers_ := ckpt_cluster_centers_ checkpoint |} |}
  else Ok kmeans.

Definition kmeans100 (pretrained progress : bool) : result KMeansObject :=
  _kmeans 100 pretrained progress.

End hub.

(** X23: lines 271-292 with lines 11-15.  [URLS] has a k-means checkpoint for
    100 clusters only: asked for pretrained values with any other number of
    clusters, [_kmeans] raises [KeyError] before anything is downloaded.
    Without pretrained values every number is accepted and the object is
    left unfitted. *)
Theorem kmeans_unknown_size (load_state_dict_from_url : string -> bool -> result Checkpoint)
    (num_clusters : Z) (progress : bool) :
  num_clusters <> 100 ->
  _kmeans load_state_dict_from_url num_clusters true progress = Raise KeyError /\
  _kmeans load_state_dict_from_url num_clusters false progress
  = Ok {| n_clusters := num_clusters; _n_threads := None; fitted := None |}.
Proof.
  intros Hne. split; [|reflexivity].
  unfold _kmeans, URLS.
  change ("kmeans" +:+ pretty num_clusters)
    with (String "k" (String "m" (String "e" (String "a" (String "n" (String "s"
            (pretty num_clusters))))))).
  cbn [dict_get].
  rewrite bool_decide_eq_false_2 by (intros [=]).
  rewrite bool_decide_eq_false_2 by (intros [=]).
  rewrite bool_decide_eq_false_2; [done|].
  intros [= H]. apply Hne. apply (pretty_Z_inj num_clusters 100). by rewrite <- H.
Qed.

Lemma kmeans_unknown_size_witness :
  _kmeans (fun _ _ => Raise RuntimeError) 50 true true = Raise KeyError /\
  _kmeans (fun _ _ => Raise RuntimeError) 50 false true
  = Ok {| n_clusters := 50; _n_threads := None; fitted := None |}.
Proof. apply (kmeans_unknown_size (fun _ _ => Raise RuntimeError) 50 true). lia. Defined.

End Loaders.
